(** * A shallow embedding of [src/state-machine.ts]

    The TypeScript module [StateMachine] builds, from a declarative
    configuration, a finite-state machine whose events are methods of a host
    object.  This file embeds the module function by function and proves (or
    refutes) the properties listed for it.

    Modelling decisions, all of them visible in the definitions below:

    - The host object [fsm] is split in two.  What [create] computes once and
      never writes again (the tables [map] and [transitions], the callbacks
      copied onto the object, the error handler, the terminal state) is the
      record [Machine].  What changes while events fire (the properties
      [current] and [transition]) is the record [Fsm].
    - The closure stored in [fsm.transition] captures [name], [from], [to]
      and [args]; it is represented by that captured context ([Ctx]), and
      the two function bodies are [transition_fn] and [transition_cancel].
    - A caller-provided callback is a function from the call context and the
      mutable part of the object to a completion (a returned value or a
      thrown one) and the mutable part it leaves behind.
    - The run of an event is a computation in a state-and-exception monad
      whose state also carries a [trace]: every callback invocation made by
      [doCallback] and every call of the error handler is appended to it.
      The trace is not visible to callbacks; it is what lets one say that a
      hook ran, ran once, or did not run.  A callback that calls back into
      the machine is covered by its net effect on [current] and
      [transition]; what it makes the machine do meanwhile is not traced.
    - The plain objects [map], [transitions] and the entries of [map]
      inherit from [Object.prototype]; what it defines is a parameter
      ([Runtime]).  [can], whose argument is any string a caller passes,
      follows the lookup into the inherited part.  The tables and the
      dispatcher are written for configurations whose own names are
      ordinary: no event or source state is named like a member of
      [Object.prototype], and no event is named like a hook.
    - [fire] is the call of the event function generated for a name.  On
      the object that function is reached as [fsm[name]] unless a callback
      or a member installed by lines 75-81 has the same name.
    - [create] is [create(cfg)] on a fresh object.  [create_on] is
      [create(cfg, target)] in general: it takes the object augmented,
      checks that the configuration is ordinary and that the call of line 84
      reaches the event function, and answers [None] where the model does
      not describe the run. *)

From Stdlib Require Import ZArith String List.
From stdpp Require Import gmap strings list fin_maps.

Module StateMachine.

(** ** Constants *)

Module Result.
Definition SUCCEEDED    : Z := 1.
Definition NOTRANSITION : Z := 2.
Definition CANCELLED    : Z := 3.
Definition PENDING      : Z := 4.
End Result.

Module Error.
Definition INVALID_TRANSITION : Z := 100.
Definition PENDING_TRANSITION : Z := 200.
Definition INVALID_CALLBACK   : Z := 300.
End Error.

Definition WILDCARD : string := "*".
Definition ASYNC : string := "async".

(** ** JavaScript values that cross the interface *)

Inductive value :=
| VUndefined
| VNull
| VBool (b : bool)
| VNum (n : Z)
| VStr (s : string)
| VError (kind : string) (msg : string).

(** [ToBoolean]: what [||], [!] and [if] look at. *)
Definition truthy (v : value) : bool :=
  match v with
  | VUndefined | VNull => false
  | VBool b => b
  | VNum n => negb (n =? 0)%Z
  | VStr s => negb (String.eqb s "")
  | VError _ _ => true
  end.

(** [false === v] and [ASYNC === v]. *)
Definition is_false (v : value) : bool :=
  match v with VBool false => true | _ => false end.

Definition is_async (v : value) : bool :=
  match v with VStr s => String.eqb s ASYNC | _ => false end.

(** [a || b] where [a] is a string or [undefined]. *)
Definition str_or (a : option string) (b : string) : string :=
  match a with
  | Some s => if String.eqb s "" then b else s
  | None => b
  end.

(** [o.hasOwnProperty(k)] on an object used as a dictionary. *)
Definition hasOwnProperty {V} (o : gmap string V) (k : string) : bool :=
  match o !! k with Some _ => true | None => false end.

(** ** Data model *)

(** The transition context [name, from, to, args] threaded through a firing. *)
Record Ctx := { c_name : string; c_from : string; c_to : string; c_args : list value }.

(** The mutable properties of the machine object. *)
Record Fsm := { current : string; transition : option Ctx }.

(** A completion: normal with a value, or abrupt with the thrown value. *)
Inductive Res (A : Type) :=
| Ok (a : A)
| Exn (e : value).
Arguments Ok {A} a.
Arguments Exn {A} e.

Definition Callback := Ctx -> Fsm -> Res value * Fsm.

(** What the dictionaries inherit.  [map], [transitions] and the entries of
    [map] are plain objects: a lookup that finds no own property goes on to
    [Object.prototype].  Which names are defined there ([toString],
    [constructor], ...), and what is stored under them, depends on the
    engine and on what the program has added, so it is a parameter of the
    model: for a name [Object.prototype] defines, [object_prototype] gives
    the answer of [Object.prototype[name].hasOwnProperty(key)], which is an
    exception when the value stored is [null] or [undefined].  (Hook names
    all start with [on]; the machine object is taken to show under such a
    name only what [Host] records.) *)
Class Runtime := { object_prototype : string -> option (string -> Res bool) }.

(** [x || y] on two own-property tests that may throw. *)
Definition or_test (a : Res bool) (b : Res bool) : Res bool :=
  match a with
  | Ok true => Ok true
  | Ok false => b
  | Exn e => Exn e
  end.

(** [error(name, from, to, args, error, msg, e)] *)
Definition Handler := Ctx -> Z -> string -> value -> Fsm -> Res value * Fsm.

(** The lifecycle points at which [doCallback] is reached. *)
Inductive Point :=
| BeforeThisEvent | BeforeAnyEvent
| LeaveThisState | LeaveAnyState
| EnterThisState | EnterAnyState
| ChangeState
| AfterThisEvent | AfterAnyEvent.

(** What the trace records. *)
Inductive Obs :=
| OCall (p : Point) (key : string) (c : Ctx)
| OError (code : Z) (c : Ctx).

Record State := { fsm : Fsm; trace : list Obs }.

(** [e.from]: an array, a single name, or absent. *)
Inductive FromSpec :=
| FromOmitted
| FromName (s : string)
| FromArray (l : list string).

Record EventSpec := { e_name : string; e_from : FromSpec; e_to : option string }.

(** [cfg.initial]: a plain string, or [{ state, event, defer }]. *)
Inductive InitialSpec :=
| InitialName (s : string)
| InitialDesc (state : string) (event : option string) (defer : bool).

(** A state name or an array of state names (argument of [is]). *)
Inductive StateArg :=
| OneState (s : string)
| ManyStates (l : list string).

Record Config := {
  cfg_initial   : option InitialSpec;
  cfg_terminal  : option StateArg;
  cfg_final     : option StateArg;
  cfg_events    : list EventSpec;
  cfg_callbacks : gmap string Callback;
  cfg_error     : option Handler
}.

(** The two tables [create] builds: [map] is [{ event: { from: to } }] and
    [transitions] is [{ state: [ event ] }]. *)
Record Tables := {
  map : gmap string (gmap string string);
  transitions : gmap string (list string)
}.

Record Machine := {
  tables    : Tables;
  terminal  : option StateArg;
  callbacks : gmap string Callback;
  error     : Handler;
  inherited : string -> option (string -> Res bool)
}.

(** ** The state-and-exception monad of a firing *)

Definition M (A : Type) := State -> Res A * State.

Definition ret {A} (a : A) : M A := fun s => (Ok a, s).

Definition throw {A} (e : value) : M A := fun s => (Exn e, s).

Definition bind {A B} (c : M A) (k : A -> M B) : M B :=
  fun s =>
    match c s with
    | (Ok a, s') => k a s'
    | (Exn e, s') => (Exn e, s')
    end.

Notation "'do' x <- c ; k" := (bind c (fun x => k))
  (at level 10, x name, c at level 100, k at level 200).
Notation "c ;; k" := (bind c (fun _ => k))
  (at level 100, k at level 200, right associativity).

Definition try_catch {A} (c : M A) (h : value -> M A) : M A :=
  fun s =>
    match c s with
    | (Ok a, s') => (Ok a, s')
    | (Exn e, s') => h e s'
    end.

Definition get_fsm : M Fsm := fun s => (Ok (fsm s), s).

Definition set_current (c : string) : M unit :=
  fun s => (Ok tt, {| fsm := {| current := c; transition := transition (fsm s) |};
                      trace := trace s |}).

Definition set_transition (t : option Ctx) : M unit :=
  fun s => (Ok tt, {| fsm := {| current := current (fsm s); transition := t |};
                      trace := trace s |}).

Definition emit (o : Obs) : M unit :=
  fun s => (Ok tt, {| fsm := fsm s; trace := trace s ++ [o] |}).

(** Run caller-provided code on the mutable part of the object. *)
Definition apply_ (f : Fsm -> Res value * Fsm) : M value :=
  fun s => let (r, m) := f (fsm s) in (r, {| fsm := m; trace := trace s |}).

(** ** [create]: the table builder *)

(** Line 47: the list of source states of an event specification. *)
Definition from_of (e : EventSpec) : list string :=
  match e_from e with
  | FromArray l => l
  | FromName s => if String.eqb s "" then [WILDCARD] else [s]
  | FromOmitted => [WILDCARD]
  end.

(** One turn of the loop of lines 49-54. *)
Definition add_from (name : string) (to : option string) (t : Tables) (f : string) : Tables :=
  {| transitions := <[f := default [] (transitions t !! f) ++ [name]]> (transitions t);
     map := <[name := <[f := str_or to f]> (default ∅ (map t !! name))]> (map t) |}.

Definition add (t : Tables) (e : EventSpec) : Tables :=
  let t0 := {| map := <[e_name e := default ∅ (map t !! e_name e)]> (map t);
               transitions := transitions t |} in
  foldl (add_from (e_name e) (e_to e)) t0 (from_of e).

(** Line 38 and 58: the initial descriptor with its event name filled in. *)
Definition initial_state (i : InitialSpec) : string :=
  match i with InitialName s => s | InitialDesc s _ _ => s end.

Definition initial_event (i : InitialSpec) : string :=
  match i with
  | InitialName _ => "startup"
  | InitialDesc _ ev _ => str_or ev "startup"
  end.

Definition initial_defer (i : InitialSpec) : bool :=
  match i with InitialName _ => false | InitialDesc _ _ d => d end.

(** Lines 57-63. *)
Definition build_tables (cfg : Config) : Tables :=
  let t0 := {| map := ∅; transitions := ∅ |} in
  let t1 := match cfg_initial cfg with
            | Some i => add t0 {| e_name := initial_event i;
                                  e_from := FromName "none";
                                  e_to := Some (initial_state i) |}
            | None => t0
            end in
  foldl add t1 (cfg_events cfg).

(** Line 81: the default handler throws [e || msg]. *)
Definition default_error : Handler :=
  fun _ _ msg e m => (Exn (if truthy e then e else VStr msg), m).

(** ToBoolean of a state name or an array of them: an array is truthy, a
    string is truthy unless empty. *)
Definition truthy_state (a : StateArg) : bool :=
  match a with
  | OneState st => negb (String.eqb st "")
  | ManyStates _ => true
  end.

(** Line 39: [cfg.terminal || cfg['final']]. *)
Definition terminal_of (cfg : Config) : option StateArg :=
  match cfg_terminal cfg with
  | Some t => if truthy_state t then Some t else cfg_final cfg
  | None => cfg_final cfg
  end.

(** What [create] computes on a fresh object (neither [target] nor
    [cfg.target]). *)
Definition build_machine `{Runtime} (cfg : Config) : Machine :=
  {| tables := build_tables cfg;
     terminal := terminal_of cfg;
     callbacks := cfg_callbacks cfg;
     error := default default_error (cfg_error cfg);
     inherited := object_prototype |}.

(** ** Hook invocation (lines 92-112) *)

Section Dispatch.

Variable mc : Machine.

(** [fsm.error(name, from, to, args, code, msg, e)] *)
Definition call_error (c : Ctx) (code : Z) (msg : string) (e : value) : M value :=
  emit (OError code c);; apply_ (error mc c code msg e).

(** [fsm[key]], when the property is one of the callbacks. *)
Definition prop (key : string) : option (string * Callback) :=
  match callbacks mc !! key with
  | Some f => Some (key, f)
  | None => None
  end.

(** [fsm[k1] || fsm[k2]] *)
Definition prop_or (k1 k2 : string) : option (string * Callback) :=
  match prop k1 with
  | Some f => Some f
  | None => prop k2
  end.

Definition doCallback (p : Point) (func : option (string * Callback)) (c : Ctx) : M value :=
  match func with
  | Some (key, f) =>
      try_catch (emit (OCall p key c);; apply_ (f c))
        (fun e => call_error c Error.INVALID_CALLBACK
                    "an exception occurred in a caller-provided callback function" e)
  | None => ret VUndefined
  end.

Definition beforeAnyEvent (c : Ctx) : M value :=
  doCallback BeforeAnyEvent (prop "onbeforeevent") c.
Definition afterAnyEvent (c : Ctx) : M value :=
  doCallback AfterAnyEvent (prop_or "onafterevent" "onevent") c.
Definition leaveAnyState (c : Ctx) : M value :=
  doCallback LeaveAnyState (prop "onleavestate") c.
Definition enterAnyState (c : Ctx) : M value :=
  doCallback EnterAnyState (prop_or "onenterstate" "onstate") c.
Definition changeState (c : Ctx) : M value :=
  doCallback ChangeState (prop "onchangestate") c.

Definition beforeThisEvent (c : Ctx) : M value :=
  doCallback BeforeThisEvent (prop ("onbefore" +:+ c_name c)) c.
Definition afterThisEvent (c : Ctx) : M value :=
  doCallback AfterThisEvent (prop_or ("onafter" +:+ c_name c) ("on" +:+ c_name c)) c.
Definition leaveThisState (c : Ctx) : M value :=
  doCallback LeaveThisState (prop ("onleave" +:+ c_from c)) c.
Definition enterThisState (c : Ctx) : M value :=
  doCallback EnterThisState (prop_or ("onenter" +:+ c_to c) ("on" +:+ c_to c)) c.

(** ** The phases (lines 114-137) *)

Definition beforeEvent (c : Ctx) : M value :=
  do v1 <- beforeThisEvent c;
  if is_false v1 then ret (VBool false)
  else
    do v2 <- beforeAnyEvent c;
    if is_false v2 then ret (VBool false) else ret VUndefined.

Definition afterEvent (c : Ctx) : M value :=
  afterThisEvent c;;
  afterAnyEvent c;;
  ret VUndefined.

Definition leaveState (c : Ctx) : M value :=
  do specific <- leaveThisState c;
  do general <- leaveAnyState c;
  if is_false specific || is_false general then ret (VBool false)
  else if is_async specific || is_async general then ret (VStr ASYNC)
  else ret VUndefined.

Definition enterState (c : Ctx) : M value :=
  enterThisState c;;
  enterAnyState c;;
  ret VUndefined.

(** ** Introspection (lines 76-80) *)

Definition is_ (st : option StateArg) (m : Fsm) : bool :=
  match st with
  | Some (ManyStates l) => bool_decide (current m ∈ l)
  | Some (OneState s) => bool_decide (current m = s)
  | None => false
  end.

(** [map[event]] is read only when no transition is pending.  It is the
    own entry of [map] if there is one, else what [Object.prototype] stores
    under that name, else [undefined], and reading a property of
    [undefined] throws. *)
Definition can (event : string) : M bool :=
  do m <- get_fsm;
  match transition m with
  | Some _ => ret false
  | None =>
      match map (tables mc) !! event with
      | Some em => ret (hasOwnProperty em (current m) || hasOwnProperty em WILDCARD)
      | None =>
          match inherited mc event with
          | Some own =>
              match or_test (own (current m)) (own WILDCARD) with
              | Ok b => ret b
              | Exn e => throw e
              end
          | None => throw (VError "TypeError" "cannot read properties of undefined")
          end
      end
  end.

Definition cannot (event : string) : M bool :=
  do b <- can event; ret (negb b).

(** [transitions[this.current]]; [None] is [undefined]. *)
Definition transitions_ (m : Fsm) : option (list string) :=
  transitions (tables mc) !! current m.

Definition isFinished (m : Fsm) : bool := is_ (terminal mc) m.

(** ** The dispatcher (lines 141-191) *)

(** Line 145: [map[from] || map[WILDCARD] || from]. *)
Definition destination (emap : gmap string string) (from : string) : string :=
  str_or (emap !! from) (str_or (emap !! WILDCARD) from).

(** The body of the function stored in [this.transition] (lines 164-171). *)
Definition transition_fn (c : Ctx) : M value :=
  set_transition None;;
  set_current (c_to c);;
  enterState c;;
  changeState c;;
  afterEvent c;;
  ret (VNum Result.SUCCEEDED).

(** The body of [this.transition.cancel] (lines 172-175). *)
Definition transition_cancel (c : Ctx) : M value :=
  set_transition None;;
  afterEvent c;;
  ret VUndefined.

(** The function [buildEvent(name, map)] returns, applied to [args]. *)
Definition buildEvent (name : string) (emap : gmap string string) (args : list value) : M value :=
  do this <- get_fsm;
  let from := current this in
  let to := destination emap from in
  let c := {| c_name := name; c_from := from; c_to := to; c_args := args |} in
  match transition this with
  | Some _ =>
    call_error c Error.PENDING_TRANSITION
      ("event " +:+ name +:+ " inappropriate because previous transition did not complete")
      VUndefined
  | None =>
    do no <- cannot name;
    if no then
      call_error c Error.INVALID_TRANSITION
        ("event " +:+ name +:+ " inappropriate in current state " +:+ from)
        VUndefined
    else
      do b <- beforeEvent c;
      if is_false b then ret (VNum Result.CANCELLED)
      else if bool_decide (from = to) then
        afterEvent c;;
        ret (VNum Result.NOTRANSITION)
      else
        set_transition (Some c);;
        do leave <- leaveState c;
        if is_false leave then
          set_transition None;;
          ret (VNum Result.CANCELLED)
        else if is_async leave then
          ret (VNum Result.PENDING)
        else
          do this' <- get_fsm;
          match transition this' with
          | Some c' => transition_fn c'
          | None => ret VUndefined
          end
  end.

(** ** Calls a client makes on the machine object *)

Definition not_a_function : value := VError "TypeError" "not a function".

(** The event function [create] generated for [name] (line 67), called on
    the object with [args].  This is the call [fsm[name](...args)] as long
    as the property still holds that function, that is, unless a callback
    or a member installed by lines 75-81 has the same name.  Where no event
    function was generated, the call is given the failure of calling a
    property that does not exist; what else the object may hold under such
    a name (a callback, an installed member, an inherited method, the slot)
    is not a firing and is not described here. *)
Definition fire (name : string) (args : list value) : M value :=
  match map (tables mc) !! name with
  | Some emap => buildEvent name emap args
  | None => throw not_a_function
  end.

(** [fsm.transition()] *)
Definition call_transition : M value :=
  do this <- get_fsm;
  match transition this with
  | Some c => transition_fn c
  | None => throw not_a_function
  end.

(** [fsm.transition.cancel()] *)
Definition call_cancel : M value :=
  do this <- get_fsm;
  match transition this with
  | Some c => transition_cancel c
  | None => throw (VError "TypeError" "cannot read properties of null")
  end.

End Dispatch.

(** ** [create] (lines 36-88) *)

Definition initial_fsm : State :=
  {| fsm := {| current := "none"; transition := None |}; trace := [] |}.

(** [create(cfg)] on a fresh object, for a configuration whose initial
    event keeps its generated function (see [create_on] for the general
    case).  The result is the machine when [create] returns, or the
    exception that escaped from the initial event; the state is what the
    object holds at that moment. *)
Definition create `{Runtime} (cfg : Config) : Res Machine * State :=
  let mc := build_machine cfg in
  match cfg_initial cfg with
  | Some i =>
      if initial_defer i then (Ok mc, initial_fsm)
      else (fire mc (initial_event i) [];; ret mc) initial_fsm
  | None => (Ok mc, initial_fsm)
  end.

(** *** [create] on a given object

    Line 40: the object augmented is [target || cfg.target || {}].  What
    matters of it: the properties it shows under hook names, its own or
    inherited ([h_props]; a property that is not a function behaves as a
    hook that throws a TypeError), and a pending transition an earlier
    firing on that object left in [transition] ([h_transition]).  Its other
    properties are either overwritten (lines 67, 72, 75-81) or never
    read. *)
Record Host := { h_props : gmap string Callback; h_transition : option Ctx }.

Definition fresh : Host := {| h_props := ∅; h_transition := None |}.

(** The members lines 75-81 write last, over anything of the same name. *)
Definition installed : list string :=
  ["current"; "is"; "can"; "cannot"; "transitions"; "isFinished"; "error"].

(** Lines 70-73 and 75-81: the property [name] no longer holds the event
    function generated for it. *)
Definition shadowed (cfg : Config) (name : string) : bool :=
  bool_decide (name ∈ installed) || hasOwnProperty (cfg_callbacks cfg) name.

(** The names the configuration uses as events, and as keys of the
    dictionaries. *)
Definition event_names (cfg : Config) : list string :=
  match cfg_initial cfg with Some i => [initial_event i] | None => [] end
  ++ (e_name <$> cfg_events cfg).

Definition key_names (cfg : Config) : list string :=
  ["none"; WILDCARD] ++ event_names cfg ++ concat (from_of <$> cfg_events cfg).

(** The configurations the tables and the dispatcher above describe: no
    dictionary key is a name [Object.prototype] defines; no event is named
    like a hook could be (hook names all start with [on]), so that a hook
    lookup never finds an event function; and neither an event nor a
    callback is named [transition], which lines 67 and 72 would store in
    the slot the dispatcher tests. *)
Definition ordinary `{Runtime} (cfg : Config) : bool :=
  forallb (fun n => match object_prototype n with Some _ => false | None => true end)
    (key_names cfg)
  && forallb (fun n => negb (String.prefix "on" n) && negb (String.eqb n "transition"))
       (event_names cfg)
  && negb (hasOwnProperty (cfg_callbacks cfg) "transition").

(** Lines 70-73: the callbacks are copied over what the object had. *)
Definition build_machine_on `{Runtime} (host : Host) (cfg : Config) : Machine :=
  let mc := build_machine cfg in
  {| tables := tables mc;
     terminal := terminal mc;
     callbacks := callbacks mc ∪ h_props host;
     error := error mc;
     inherited := inherited mc |}.

Definition start_state (host : Host) : State :=
  {| fsm := {| current := "none"; transition := h_transition host |}; trace := [] |}.

(** [create(cfg, target)].  [None] stands for a run this model does not
    describe: a configuration that is not [ordinary], or a call at line 84
    that reaches a callback or an installed member instead of the event
    function. *)
Definition create_on `{Runtime} (host : Host) (cfg : Config)
    : option (Res Machine * State) :=
  if negb (ordinary cfg) then None
  else
    let mc := build_machine_on host cfg in
    match cfg_initial cfg with
    | Some i =>
        if initial_defer i then Some (Ok mc, start_state host)
        else if shadowed cfg (initial_event i) then None
        else Some ((fire mc (initial_event i) [];; ret mc) (start_state host))
    | None => Some (Ok mc, start_state host)
    end.

End StateMachine.

Import StateMachine.

(** * Vocabulary of the statements *)

(** What a computation appended to the trace between two states. *)
Definition new_trace (s s' : State) : list Obs :=
  drop (length (trace s)) (trace s').

(** The error handler was called with this code. *)
Definition reports (code : Z) (tr : list Obs) : Prop :=
  ∃ c, OError code c ∈ tr.

Definition is_call (o : Obs) : bool :=
  match o with OCall _ _ _ => true | OError _ _ => false end.

(** The callback invocations of a trace, in order. *)
Definition hook_calls (tr : list Obs) : list Obs := filter is_call tr.

(** The context a firing of [name] builds in the state [m]. *)
Definition context (name : string) (emap : gmap string string) (args : list value)
    (m : Fsm) : Ctx :=
  {| c_name := name; c_from := current m;
     c_to := destination emap (current m); c_args := args |}.

(** An error handler that leaves [current] and [transition] as it found
    them. *)
Definition quiet_handler (mc : Machine) : Prop :=
  ∀ c code msg e m, (error mc c code msg e m).2 = m.

(** [extends P c]: running [c] only appends to the trace, and only
    observations satisfying [P]. *)
Definition extends {A} (P : Obs → Prop) (c : M A) : Prop :=
  ∀ s, ∃ new, trace (c s).2 = trace s ++ new ∧ Forall P new.

(** The observations the hook phases of a firing can make: callback
    invocations, and reports of a callback that threw. *)
Definition callback_phase (o : Obs) : Prop :=
  match o with
  | OCall _ _ _ => True
  | OError code _ => code = Error.INVALID_CALLBACK
  end.

(** Lines 154-188: what a firing does once both guards have let it pass. *)
Definition dispatch_body (mc : Machine) (c : Ctx) : M value :=
  do b <- beforeEvent mc c;
  if is_false b then ret (VNum Result.CANCELLED)
  else if bool_decide (c_from c = c_to c) then
    afterEvent mc c;;
    ret (VNum Result.NOTRANSITION)
  else
    set_transition (Some c);;
    do leave <- leaveState mc c;
    if is_false leave then
      set_transition None;;
      ret (VNum Result.CANCELLED)
    else if is_async leave then
      ret (VNum Result.PENDING)
    else
      do this' <- get_fsm;
      match transition this' with
      | Some c' => transition_fn mc c'
      | None => ret VUndefined
      end.

(** The state [s] with [new] appended to its trace. *)
Definition logged (s : State) (new : list Obs) : State :=
  {| fsm := fsm s; trace := trace s ++ new |}.

(** A callback that returns and leaves [current] and [transition] alone. *)
Definition calm_callbacks (mc : Machine) : Prop :=
  ∀ k f c m, callbacks mc !! k = Some f → ∃ v, f c m = (Ok v, m).

(** The callbacks of a machine never cancel, suspend or throw. *)
Definition plain_callbacks (mc : Machine) : Prop :=
  ∀ k f c m, callbacks mc !! k = Some f →
    ∃ v, f c m = (Ok v, m) ∧ is_false v = false ∧ is_async v = false.

(** What a function value passed to [doCallback] returns, and the trace
    entry its invocation leaves. *)
Definition answer (func : option (string * Callback)) (c : Ctx) (m : Fsm) : value :=
  match func with
  | Some (_, f) => match (f c m).1 with Ok v => v | Exn _ => VUndefined end
  | None => VUndefined
  end.

Definition entry (p : Point) (func : option (string * Callback)) (c : Ctx) : list Obs :=
  match func with
  | Some (key, _) => [OCall p key c]
  | None => []
  end.

(** The function value passed to [doCallback] is a property of the object. *)
Definition from_table (mc : Machine) (func : option (string * Callback)) : Prop :=
  ∀ key f, func = Some (key, f) → callbacks mc !! key = Some f.

(** What the hook stored under [key] returns ([undefined] when there is
    none). *)
Definition hook_answer (mc : Machine) (key : string) (c : Ctx) (m : Fsm) : value :=
  answer (prop mc key) c m.

(** Resolution of a hook name, stated on the table of callbacks: the first
    of [keys] that is present. *)
Fixpoint first_present (mc : Machine) (keys : list string) : option string :=
  match keys with
  | [] => None
  | k :: rest =>
      match callbacks mc !! k with
      | Some _ => Some k
      | None => first_present mc rest
      end
  end.

Definition call_of (p : Point) (key : option string) (c : Ctx) : list Obs :=
  match key with
  | Some k => [OCall p k c]
  | None => []
  end.

Definition enter_calls (mc : Machine) (c : Ctx) : list Obs :=
  call_of EnterThisState (first_present mc ["onenter" +:+ c_to c; "on" +:+ c_to c]) c
  ++ call_of EnterAnyState (first_present mc ["onenterstate"; "onstate"]) c.

Definition change_calls (mc : Machine) (c : Ctx) : list Obs :=
  call_of ChangeState (first_present mc ["onchangestate"]) c.

Definition after_calls (mc : Machine) (c : Ctx) : list Obs :=
  call_of AfterThisEvent (first_present mc ["onafter" +:+ c_name c; "on" +:+ c_name c]) c
  ++ call_of AfterAnyEvent (first_present mc ["onafterevent"; "onevent"]) c.

Definition before_calls (mc : Machine) (c : Ctx) : list Obs :=
  call_of BeforeThisEvent (first_present mc ["onbefore" +:+ c_name c]) c
  ++ call_of BeforeAnyEvent (first_present mc ["onbeforeevent"]) c.

Definition leave_calls (mc : Machine) (c : Ctx) : list Obs :=
  call_of LeaveThisState (first_present mc ["onleave" +:+ c_from c]) c
  ++ call_of LeaveAnyState (first_present mc ["onleavestate"]) c.

(** The hook stored under [key] returns [v] and leaves the machine alone. *)
Definition returns_quietly (mc : Machine) (key : string) (c : Ctx) (m : Fsm)
    (v : value) : Prop :=
  ∃ f, callbacks mc !! key = Some f ∧ f c m = (Ok v, m).

(** The hook stored under [key] is absent, or returns, or throws and has
    its exception swallowed by the error handler; in each case [current]
    and [transition] are left alone. *)
Definition passes_quietly (mc : Machine) (key : string) (c : Ctx) (m : Fsm) : Prop :=
  callbacks mc !! key = None
  ∨ (∃ v, returns_quietly mc key c m v)
  ∨ (∃ f e v, callbacks mc !! key = Some f ∧ f c m = (Exn e, m)
       ∧ error mc c Error.INVALID_CALLBACK
           "an exception occurred in a caller-provided callback function" e m
         = (Ok v, m)).

(** The machine object between line 164 and the end of the leave phase. *)
Definition armed (c : Ctx) (m : Fsm) : Fsm :=
  {| current := current m; transition := Some c |}.

(** An observation that is not a hook call outside the before phase. *)
Definition before_point (o : Obs) : Prop :=
  match o with
  | OCall p _ _ => p = BeforeThisEvent ∨ p = BeforeAnyEvent
  | OError _ _ => True
  end.

(** [map[e]] read as a dictionary (empty when [e] is not a key), and
    [transitions[st]] read as a list. *)
Definition keys_of (t : Tables) (e : string) : gmap string string :=
  default ∅ (map t !! e).



(** * Scenarios

    Concrete configurations on which the statements are exercised. *)

Definition returning (v : value) : Callback := fun _ m => (Ok v, m).

Definition throwing (e : value) : Callback := fun _ m => (Exn e, m).

Definition event (name : string) (from : FromSpec) (to : option string) : EventSpec :=
  {| e_name := name; e_from := from; e_to := to |}.

Definition config (initial : string) (events : list EventSpec)
    (cbs : list (string * Callback)) (err : option Handler) : Config :=
  {| cfg_initial := Some (InitialName initial);
     cfg_terminal := None; cfg_final := None;
     cfg_events := events;
     cfg_callbacks := list_to_map cbs;
     cfg_error := err |}.

Definition lifecycle_events : list EventSpec :=
  [ event "start" (FromName "created") (Some "running");
    event "stop" (FromName "running") (Some "stopped");
    event "reset" FromOmitted (Some "created") ].

(** The machine of the end-to-end scenario, without callbacks. *)
Definition cfg_lifecycle : Config := config "created" lifecycle_events [] None.

(** Leaving [created] is asynchronous; every other hook just returns. *)
Definition cfg_async : Config :=
  config "created" lifecycle_events
    [ ("onleavecreated", returning (VStr ASYNC));
      ("onenterrunning", returning VUndefined);
      ("onenterstate", returning VUndefined);
      ("onchangestate", returning VUndefined);
      ("onafterstart", returning VUndefined) ]
    None.

(** The runtime of the scenarios: the members every engine finds on
    [Object.prototype], each a function whose own properties are [length]
    and [name]. *)
Definition engine : Runtime :=
  {| object_prototype := fun n =>
       if bool_decide (n ∈ ["constructor"; "toString"; "toLocaleString"; "valueOf";
                            "hasOwnProperty"; "isPrototypeOf"; "propertyIsEnumerable"])
       then Some (fun k => Ok (bool_decide (k ∈ ["length"; "name"])))
       else None |}.

#[export] Existing Instance engine.

(** The machine [create] returns for a configuration, and the state of the
    object at that moment. *)
Definition machine_of (cfg : Config) : Machine := build_machine cfg.

Definition booted (cfg : Config) : State := (create cfg).2.

(** The state after firing [name] without arguments. *)
Definition after_firing (cfg : Config) (name : string) (s : State) : State :=
  (fire (machine_of cfg) name [] s).2.

(** A hook that returns [false] for the event [name] only. *)
Definition vetoing (name : string) : Callback :=
  fun c m => (Ok (if String.eqb (c_name c) name then VBool false else VUndefined), m).

(** [onbeforestart] lets the event pass, [onbeforeevent] vetoes [start]. *)
Definition cfg_veto : Config :=
  config "created" lifecycle_events
    [ ("onbeforestart", returning VUndefined);
      ("onbeforeevent", vetoing "start");
      ("onleavecreated", returning VUndefined) ]
    None.

Definition pending_state : State := after_firing cfg_async "start" (booted cfg_async).

(** The hook run when leaving [created] throws; the handler is the default. *)
Definition cfg_throwing : Config :=
  config "created" lifecycle_events [ ("onleavecreated", throwing (VStr "boom")) ] None.

(** Hooks that only observe. *)
Definition cfg_plain : Config :=
  config "created" lifecycle_events
    [ ("onentercreated", returning VUndefined);
      ("onstartup", returning (VNum 7));
      ("onleavestate", returning VNull) ]
    None.

(** The configuration declares the initial event a second time, from
    [none] to another state. *)
Definition cfg_redeclared : Config :=
  config "created" [ event "startup" (FromName "none") (Some "running") ] [] None.

(** An event specification with neither [from] nor [to]. *)
Definition cfg_noop : Config :=
  config "created" [ event "noop" FromOmitted None ] [] None.

(** * Vocabulary of the further properties *)

(** Neither the callbacks nor the error handler write [current] or
    [transition]; they may return anything and they may throw. *)
Definition quiet_machine (mc : Machine) : Prop :=
  (∀ k f c m, callbacks mc !! k = Some f → (f c m).2 = m) ∧ quiet_handler mc.

(** A computation that leaves [current] and [transition] as it found them,
    however it completes. *)
Definition keeps {A} (c : M A) : Prop :=
  ∀ s, fsm (c s).2 = fsm s.

(** An observation made at one of the lifecycle points [ps]: a call of a
    hook of such a point, or the report of a hook that threw. *)
Definition phase_point (ps : list Point) (o : Obs) : Prop :=
  match o with
  | OCall p _ _ => p ∈ ps
  | OError code _ => code = Error.INVALID_CALLBACK
  end.

(** The machine object once a transition to [c_to c] is committed. *)
Definition committed (c : Ctx) : Fsm :=
  {| current := c_to c; transition := None |}.

(** A leave hook that completes the transition itself (the net effect of
    calling [this.transition()] inside the hook) and returns nothing. *)
Definition completing : Callback :=
  fun c _ => (Ok VUndefined, {| current := c_to c; transition := None |}).

Definition cfg_manual : Config :=
  config "created" lifecycle_events [ ("onleavecreated", completing) ] None.

(** The specific leave hook asks to suspend, the general one refuses. *)
Definition cfg_leave_veto : Config :=
  config "created" lifecycle_events
    [ ("onleavecreated", returning (VStr ASYNC));
      ("onleavestate", vetoing "start");
      ("onafterstart", returning VUndefined) ]
    None.

(** Every hook of the event [start] is present and returns nothing. *)
Definition cfg_observed : Config :=
  config "created" lifecycle_events
    [ ("onbeforestart", returning VUndefined);
      ("onleavecreated", returning VUndefined);
      ("onenterrunning", returning VUndefined);
      ("onchangestate", returning VUndefined);
      ("onafterevent", returning VUndefined) ]
    None.

(** [onbeforestart] refuses; [onbeforeevent] is present as well. *)
Definition cfg_before_veto : Config :=
  config "created" lifecycle_events
    [ ("onbeforestart", vetoing "start");
      ("onbeforeevent", returning VUndefined) ]
    None.

(** The enter hook throws a falsy value. *)
Definition cfg_throwing_enter : Config :=
  config "created" lifecycle_events [ ("onenterrunning", throwing (VStr "")) ] None.

(** Leaving [created] is asynchronous and entering [running] throws. *)
Definition cfg_async_throwing : Config :=
  config "created" lifecycle_events
    [ ("onleavecreated", returning (VStr ASYNC));
      ("onenterrunning", throwing (VStr "boom")) ]
    None.

(** The states [isFinished] accepts: those of [cfg.terminal]; those of
    [cfg.final] when [cfg.terminal] is absent or the empty string (which
    [||] takes for absent); else none. *)
Definition states_of (a : StateArg) : list string :=
  match a with OneState st => [st] | ManyStates l => l end.

Definition final_states (cfg : Config) : list string :=
  match cfg_final cfg with Some a => states_of a | None => [] end.

Definition terminal_states (cfg : Config) : list string :=
  match cfg_terminal cfg with
  | Some (ManyStates l) => l
  | Some (OneState st) => if String.eqb st "" then final_states cfg else [st]
  | None => final_states cfg
  end.








(** * Reasoning about the monad *)

Lemma new_trace_app s s' new :
  trace s' = trace s ++ new → new_trace s s' = new.
Proof. intros E. unfold new_trace. by rewrite E, drop_app_length. Qed.


Lemma extends_ret {A} P (a : A) : extends P (ret a).
Proof. intros s. exists []. by rewrite app_nil_r. Qed.

Lemma extends_throw {A} P e : extends P (@throw A e).
Proof. intros s. exists []. by rewrite app_nil_r. Qed.

Lemma extends_get_fsm P : extends P get_fsm.
Proof. intros s. exists []. by rewrite app_nil_r. Qed.

Lemma extends_set_current P c : extends P (set_current c).
Proof. intros s. exists []. simpl. by rewrite app_nil_r. Qed.

Lemma extends_set_transition P t : extends P (set_transition t).
Proof. intros s. exists []. simpl. by rewrite app_nil_r. Qed.

Lemma extends_emit (P : Obs → Prop) o : P o → extends P (emit o).
Proof. intros Ho s. exists [o]. simpl. split; [done | by constructor]. Qed.

Lemma extends_apply P f : extends P (apply_ f).
Proof.
  intros s. exists []. unfold apply_. destruct (f (fsm s)) as [r m]. simpl.
  by rewrite app_nil_r.
Qed.

Lemma extends_bind {A B} P (c : M A) (k : A → M B) :
  extends P c → (∀ a, extends P (k a)) → extends P (bind c k).
Proof.
  intros Hc Hk s. unfold bind. destruct (Hc s) as (n1 & E1 & F1).
  destruct (c s) as [[a|e] s1]; simpl in *.
  - destruct (Hk a s1) as (n2 & E2 & F2). exists (n1 ++ n2).
    rewrite E2, E1, app_assoc. split; [done | by apply Forall_app].
  - by exists n1.
Qed.

Lemma extends_try_catch {A} P (c : M A) (h : value → M A) :
  extends P c → (∀ e, extends P (h e)) → extends P (try_catch c h).
Proof.
  intros Hc Hh s. unfold try_catch. destruct (Hc s) as (n1 & E1 & F1).
  destruct (c s) as [[a|e] s1]; simpl in *.
  - by exists n1.
  - destruct (Hh e s1) as (n2 & E2 & F2). exists (n1 ++ n2).
    rewrite E2, E1, app_assoc. split; [done | by apply Forall_app].
Qed.


Section PhaseTraces.

Variable mc : Machine.

Lemma extends_doCallback p func c : extends callback_phase (doCallback mc p func c).
Proof.
  unfold doCallback. destruct func as [[key f]|]; [|apply extends_ret].
  apply extends_try_catch.
  - apply extends_bind; [by apply extends_emit | intros _; apply extends_apply].
  - intros e. unfold call_error.
    apply extends_bind; [by apply extends_emit | intros _; apply extends_apply].
Qed.

Lemma extends_beforeEvent c : extends callback_phase (beforeEvent mc c).
Proof.
  unfold beforeEvent, beforeThisEvent, beforeAnyEvent.
  apply extends_bind; [apply extends_doCallback | intros v1].
  destruct (is_false v1); [apply extends_ret|].
  apply extends_bind; [apply extends_doCallback | intros v2].
  destruct (is_false v2); apply extends_ret.
Qed.

Lemma extends_afterEvent c : extends callback_phase (afterEvent mc c).
Proof.
  unfold afterEvent, afterThisEvent, afterAnyEvent.
  repeat (apply extends_bind; [apply extends_doCallback | intros _]).
  apply extends_ret.
Qed.

Lemma extends_leaveState c : extends callback_phase (leaveState mc c).
Proof.
  unfold leaveState, leaveThisState, leaveAnyState.
  apply extends_bind; [apply extends_doCallback | intros v1].
  apply extends_bind; [apply extends_doCallback | intros v2].
  destruct (_ || _); [apply extends_ret|].
  destruct (_ || _); apply extends_ret.
Qed.

Lemma extends_enterState c : extends callback_phase (enterState mc c).
Proof.
  unfold enterState, enterThisState, enterAnyState.
  repeat (apply extends_bind; [apply extends_doCallback | intros _]).
  apply extends_ret.
Qed.

Lemma extends_transition_fn c : extends callback_phase (transition_fn mc c).
Proof.
  unfold transition_fn.
  apply extends_bind; [apply extends_set_transition | intros _].
  apply extends_bind; [apply extends_set_current | intros _].
  apply extends_bind; [apply extends_enterState | intros _].
  apply extends_bind; [apply extends_doCallback | intros _].
  apply extends_bind; [apply extends_afterEvent | intros _].
  apply extends_ret.
Qed.


Lemma extends_dispatch_body c : extends callback_phase (dispatch_body mc c).
Proof.
  unfold dispatch_body.
  apply extends_bind; [apply extends_beforeEvent | intros b].
  destruct (is_false b); [apply extends_ret|].
  case_bool_decide.
  { apply extends_bind; [apply extends_afterEvent | intros _; apply extends_ret]. }
  apply extends_bind; [apply extends_set_transition | intros _].
  apply extends_bind; [apply extends_leaveState | intros l].
  destruct (is_false l).
  { apply extends_bind; [apply extends_set_transition | intros _; apply extends_ret]. }
  destruct (is_async l); [apply extends_ret|].
  apply extends_bind; [apply extends_get_fsm | intros m].
  destruct (transition m); [apply extends_transition_fn | apply extends_ret].
Qed.

(** The three ways a firing of a registered event can go. *)
Lemma fire_pending name emap args s c0 :
  map (tables mc) !! name = Some emap →
  transition (fsm s) = Some c0 →
  fire mc name args s =
    call_error mc (context name emap args (fsm s)) Error.PENDING_TRANSITION
      ("event " +:+ name +:+ " inappropriate because previous transition did not complete")
      VUndefined s.
Proof.
  intros Hreg Hp. unfold fire. rewrite Hreg. unfold buildEvent, bind at 1, get_fsm.
  by rewrite Hp.
Qed.

Lemma fire_invalid name emap args s :
  map (tables mc) !! name = Some emap →
  transition (fsm s) = None →
  hasOwnProperty emap (current (fsm s)) || hasOwnProperty emap WILDCARD = false →
  fire mc name args s =
    call_error mc (context name emap args (fsm s)) Error.INVALID_TRANSITION
      ("event " +:+ name +:+ " inappropriate in current state " +:+ current (fsm s))
      VUndefined s.
Proof.
  intros Hreg Hp Hno. unfold fire. rewrite Hreg. unfold buildEvent, bind at 1, get_fsm.
  rewrite Hp. unfold bind at 1, cannot, can, bind at 1, bind at 1, get_fsm.
  by rewrite Hp, Hreg; unfold ret; rewrite Hno.
Qed.

Lemma fire_permitted name emap args s :
  map (tables mc) !! name = Some emap →
  transition (fsm s) = None →
  hasOwnProperty emap (current (fsm s)) || hasOwnProperty emap WILDCARD = true →
  fire mc name args s = dispatch_body mc (context name emap args (fsm s)) s.
Proof.
  intros Hreg Hp Hyes. unfold fire. rewrite Hreg. unfold buildEvent, bind at 1, get_fsm.
  rewrite Hp. unfold bind at 1, cannot, can, bind at 1, bind at 1, get_fsm.
  by rewrite Hp, Hreg; unfold ret; rewrite Hyes.
Qed.

Lemma call_error_trace c code msg e s :
  trace (call_error mc c code msg e s).2 = trace s ++ [OError code c].
Proof.
  unfold call_error, bind, emit, apply_. simpl.
  by destruct (error mc c code msg e (fsm s)).
Qed.

Lemma call_error_result c code msg e s :
  ((call_error mc c code msg e s).1, fsm (call_error mc c code msg e s).2)
  = error mc c code msg e (fsm s).
Proof.
  unfold call_error, bind, emit, apply_. simpl.
  by destruct (error mc c code msg e (fsm s)).
Qed.

End PhaseTraces.

(** * The end-to-end scenario *)

Example lifecycle_scenario :
  let mc := machine_of cfg_lifecycle in
  let s0 := booted cfg_lifecycle in
  let r1 := fire mc "start" [] s0 in
  let r2 := fire mc "start" [] r1.2 in
  let r3 := fire mc "stop" [] r2.2 in
  let r4 := fire mc "reset" [] r3.2 in
  current (fsm s0) = "created"
  ∧ (r1.1 = Ok (VNum Result.SUCCEEDED) ∧ current (fsm r1.2) = "running")
  ∧ (r2.1 = Exn (VStr "event start inappropriate in current state running")
     ∧ fsm r2.2 = fsm r1.2)
  ∧ (r3.1 = Ok (VNum Result.SUCCEEDED) ∧ current (fsm r3.2) = "stopped")
  ∧ (r4.1 = Ok (VNum Result.SUCCEEDED) ∧ current (fsm r4.2) = "created").
Proof. repeat split; vm_compute; reflexivity. Qed.

(** * The pending guard and the permission check *)

(** C4.  When the [transition] slot of the machine is occupied, firing any
    event the machine was built with calls the error handler once, with
    PENDING_TRANSITION, and does nothing else: that single report is all the
    firing adds to the trace, so no hook of any phase runs and
    INVALID_TRANSITION is not reported; the completion of the firing and the
    state of the object are the ones the handler produces. *)
Theorem pending_guard mc name emap args s c0 :
  map (tables mc) !! name = Some emap →
  transition (fsm s) = Some c0 →
  let r := fire mc name args s in
  let c := context name emap args (fsm s) in
  new_trace s r.2 = [OError Error.PENDING_TRANSITION c]
  ∧ hook_calls (new_trace s r.2) = []
  ∧ ¬ reports Error.INVALID_TRANSITION (new_trace s r.2)
  ∧ (r.1, fsm r.2) =
      error mc c Error.PENDING_TRANSITION
        ("event " +:+ name +:+ " inappropriate because previous transition did not complete")
        VUndefined (fsm s).
Proof.
  intros Hreg Hp r c. subst r c.
  rewrite (fire_pending mc name emap args s c0 Hreg Hp).
  set (c := context name emap args (fsm s)).
  assert (new_trace s (call_error mc c Error.PENDING_TRANSITION
            ("event " +:+ name +:+ " inappropriate because previous transition did not complete")
            VUndefined s).2 = [OError Error.PENDING_TRANSITION c]) as E.
  { apply new_trace_app, call_error_trace. }
  rewrite E. split_and!; [done | done | | apply call_error_result].
  intros [c' Hin]. apply list_elem_of_singleton in Hin. discriminate.
Qed.

Lemma pending_guard_witness :
  let mc := machine_of cfg_async in
  let emap : gmap string string := {[ "running" := "stopped" ]} in
  let c := context "stop" emap [] (fsm pending_state) in
  new_trace pending_state (fire mc "stop" [] pending_state).2
    = [OError Error.PENDING_TRANSITION c].
Proof.
  intros mc emap c.
  refine (proj1 (pending_guard mc "stop" emap [] pending_state
            (context "start" {[ "created" := "running" ]} [] (fsm (booted cfg_async))) _ _)).
  - vm_compute. reflexivity.
  - vm_compute. reflexivity.
Defined.

(** C5.  With no transition pending, firing an event the machine was built
    with reports INVALID_TRANSITION and runs no hook exactly when the
    event's entry of [map] has neither the current state nor the wildcard as
    a key. *)
Theorem invalid_transition_iff mc name emap args s :
  map (tables mc) !! name = Some emap →
  transition (fsm s) = None →
  let new := new_trace s (fire mc name args s).2 in
  (reports Error.INVALID_TRANSITION new ∧ hook_calls new = [])
  ↔ (hasOwnProperty emap (current (fsm s)) = false
     ∧ hasOwnProperty emap WILDCARD = false).
Proof.
  intros Hreg Hp new. subst new.
  destruct (hasOwnProperty emap (current (fsm s)) || hasOwnProperty emap WILDCARD) eqn:Hcan.
  - rewrite (fire_permitted mc name emap args s Hreg Hp Hcan).
    destruct (extends_dispatch_body mc (context name emap args (fsm s)) s) as (n & E & F).
    rewrite (new_trace_app _ _ _ E). split.
    + intros [[c Hin] _]. rewrite Forall_forall in F. specialize (F _ Hin).
      simpl in F. discriminate.
    + intros [H1 H2]. rewrite H1, H2 in Hcan. discriminate.
  - rewrite (fire_invalid mc name emap args s Hreg Hp Hcan).
    erewrite new_trace_app by apply call_error_trace. split.
    + intros _. by apply orb_false_iff in Hcan.
    + intros _. split; [|done]. eexists. apply list_elem_of_singleton. reflexivity.
Qed.

Lemma invalid_transition_iff_witness :
  let mc := machine_of cfg_async in
  let new := new_trace (booted cfg_async) (fire mc "stop" [] (booted cfg_async)).2 in
  reports Error.INVALID_TRANSITION new ∧ hook_calls new = [].
Proof.
  intros mc new.
  refine (proj2 (invalid_transition_iff mc "stop" {[ "running" := "stopped" ]} []
                   (booted cfg_async) _ _) _).
  - vm_compute. reflexivity.
  - vm_compute. reflexivity.
  - split; vm_compute; reflexivity.
Defined.

(** * Error reports and the state of the machine *)

(** C1, as stated, fails.  In [cfg_throwing] the hook [onleavecreated]
    throws.  Firing [start] reports INVALID_CALLBACK through the default
    handler, which rethrows; the assignment of line 164 is not undone, so
    the [transition] slot, empty before the attempt, is occupied after it. *)
Lemma callback_error_changes_state :
  let mc := machine_of cfg_throwing in
  let s := booted cfg_throwing in
  let r := fire mc "start" [] s in
  reports Error.INVALID_CALLBACK (new_trace s r.2)
  ∧ r.1 = Exn (VStr "boom")
  ∧ transition (fsm s) = None
  ∧ transition (fsm r.2) =
      Some {| c_name := "start"; c_from := "created"; c_to := "running"; c_args := [] |}
  ∧ fsm r.2 ≠ fsm s.
Proof.
  intros mc s r. split_and!.
  - eexists. apply list_elem_of_In. vm_compute. right. left. reflexivity.
  - vm_compute. reflexivity.
  - vm_compute. reflexivity.
  - vm_compute. reflexivity.
  - vm_compute. discriminate.
Qed.

(** C1, amended.  A firing that reports INVALID_TRANSITION or
    PENDING_TRANSITION leaves [current] and the [transition] slot as they
    were, for every error handler that does not write them itself.  (The
    default handler is one: it only throws.) *)
Theorem guard_errors_preserve_state mc name args s :
  quiet_handler mc →
  let r := fire mc name args s in
  reports Error.INVALID_TRANSITION (new_trace s r.2)
  ∨ reports Error.PENDING_TRANSITION (new_trace s r.2) →
  fsm r.2 = fsm s.
Proof.
  intros Hq r Hrep. subst r.
  destruct (map (tables mc) !! name) as [emap|] eqn:Hreg.
  2:{ exfalso. unfold fire in Hrep. rewrite Hreg in Hrep.
      unfold throw, new_trace in Hrep. simpl in Hrep. rewrite drop_all in Hrep.
      destruct Hrep as [[c H]|[c H]]; by apply elem_of_nil in H. }
  destruct (transition (fsm s)) as [c0|] eqn:Hp.
  - rewrite (fire_pending mc name emap args s c0 Hreg Hp).
    pose proof (call_error_result mc (context name emap args (fsm s))
      Error.PENDING_TRANSITION
      ("event " +:+ name +:+ " inappropriate because previous transition did not complete")
      VUndefined s) as E.
    apply (f_equal snd) in E. simpl in E. rewrite E. apply Hq.
  - destruct (hasOwnProperty emap (current (fsm s)) || hasOwnProperty emap WILDCARD) eqn:Hcan.
    + exfalso. rewrite (fire_permitted mc name emap args s Hreg Hp Hcan) in Hrep.
      destruct (extends_dispatch_body mc (context name emap args (fsm s)) s) as (n & E & F).
      rewrite (new_trace_app _ _ _ E) in Hrep. rewrite Forall_forall in F.
      destruct Hrep as [[c H]|[c H]]; specialize (F _ H); simpl in F; discriminate.
    + rewrite (fire_invalid mc name emap args s Hreg Hp Hcan).
      pose proof (call_error_result mc (context name emap args (fsm s))
        Error.INVALID_TRANSITION
        ("event " +:+ name +:+ " inappropriate in current state " +:+ current (fsm s))
        VUndefined s) as E.
      apply (f_equal snd) in E. simpl in E. rewrite E. apply Hq.
Qed.

Lemma guard_errors_preserve_state_witness :
  fsm (fire (machine_of cfg_async) "stop" [] (booted cfg_async)).2 = fsm (booted cfg_async).
Proof.
  refine (guard_errors_preserve_state (machine_of cfg_async) "stop" [] (booted cfg_async) _ _).
  - intros c code msg e m. reflexivity.
  - left. eexists. apply list_elem_of_In. vm_compute. left. reflexivity.
Defined.

(** * Introspection of an unknown event *)

(** C10, as stated, fails.  While a transition is pending, [can] stops at
    [!this.transition] and never reads [map[event]]: for a name the machine
    was not built with it returns [false], and [cannot] returns [true]. *)
Lemma can_unregistered_while_pending :
  let mc := machine_of cfg_async in
  map (tables mc) !! "bogus" = None
  ∧ can mc "bogus" pending_state = (Ok false, pending_state)
  ∧ cannot mc "bogus" pending_state = (Ok true, pending_state)
  ∧ ¬ (∃ e, (can mc "bogus" pending_state).1 = Exn e).
Proof.
  intros mc. split_and!; try (vm_compute; reflexivity).
  intros [e H]. vm_compute in H. discriminate.
Qed.

(** C10, amended.  For an event name the machine was not built with: while
    a transition is pending, [can] returns [false] and [cannot] returns
    [true], and the map is not read.  With nothing pending, if
    [Object.prototype] does not define the name either, [can] and [cannot]
    throw (a property of [undefined] is read) and change nothing; if it
    does ([toString], [constructor], ...), they read the inherited value
    instead: [can] answers whether that value has the current state or the
    wildcard as an own property, and [cannot] the negation. *)
Theorem can_unregistered mc event s :
  map (tables mc) !! event = None →
  match transition (fsm s) with
  | None =>
      match inherited mc event with
      | None =>
          (∃ e, can mc event s = (Exn e, s)) ∧ (∃ e, cannot mc event s = (Exn e, s))
      | Some own =>
          can mc event s = (or_test (own (current (fsm s))) (own WILDCARD), s)
          ∧ cannot mc event s =
              (match or_test (own (current (fsm s))) (own WILDCARD) with
               | Ok b => Ok (negb b)
               | Exn e => Exn e
               end, s)
      end
  | Some _ =>
      can mc event s = (Ok false, s) ∧ cannot mc event s = (Ok true, s)
  end.
Proof.
  intros Hreg. unfold cannot, can, bind, get_fsm.
  destruct (transition (fsm s)); [done|].
  rewrite Hreg. destruct (inherited mc event) as [own|]; [|split; by eexists].
  by destruct (or_test (own (current (fsm s))) (own WILDCARD)) as [[|]|e].
Qed.

Lemma can_unregistered_witness :
  (∃ e, can (machine_of cfg_async) "bogus" (booted cfg_async) = (Exn e, booted cfg_async))
  ∧ (∃ e, cannot (machine_of cfg_async) "bogus" (booted cfg_async) = (Exn e, booted cfg_async)).
Proof.
  refine (can_unregistered (machine_of cfg_async) "bogus" (booted cfg_async) _).
  vm_compute. reflexivity.
Defined.

(** With nothing pending, a name that is not an event but that
    [Object.prototype] defines does not make [can] throw. *)
Example can_inherited_name :
  can (machine_of cfg_async) "toString" (booted cfg_async) = (Ok false, booted cfg_async)
  ∧ cannot (machine_of cfg_async) "toString" (booted cfg_async)
    = (Ok true, booted cfg_async).
Proof. split; vm_compute; reflexivity. Qed.

(** * An event specification without [to] *)

(** C3 at a failing input.  [cfg_noop] declares the event [noop] with
    neither [from] nor [to].  Line 53 stores the wildcard itself as the
    destination, line 145 reads it back, and firing [noop] in the state
    [created] is a full transition into a state named [*]. *)
Theorem noop_without_from_moves_to_wildcard :
  let mc := machine_of cfg_noop in
  let s := booted cfg_noop in
  current (fsm s) = "created"
  ∧ map (tables mc) !! "noop" = Some {[ WILDCARD := WILDCARD ]}
  ∧ fire mc "noop" [] s =
      (Ok (VNum Result.SUCCEEDED),
       {| fsm := {| current := WILDCARD; transition := None |}; trace := [] |}).
Proof. intros mc s. split_and!; vm_compute; reflexivity. Qed.

(** * Firings whose callbacks return *)

Lemma bind_ok {A B} (c : M A) (k : A → M B) s a s' :
  c s = (Ok a, s') → bind c k s = k a s'.
Proof. intros E. unfold bind. by rewrite E. Qed.

Lemma logged_logged s a b : logged (logged s a) b = logged s (a ++ b).
Proof. unfold logged. simpl. by rewrite app_assoc. Qed.

Lemma logged_nil s : logged s [] = s.
Proof. destruct s. unfold logged. simpl. by rewrite app_nil_r. Qed.

Lemma fsm_logged s new : fsm (logged s new) = fsm s.
Proof. reflexivity. Qed.

Lemma new_trace_logged s new : new_trace s (logged s new) = new.
Proof. by apply new_trace_app. Qed.

Lemma entry_prop mc p k c :
  entry p (prop mc k) c = call_of p (first_present mc [k]) c.
Proof.
  unfold prop. simpl. by destruct (callbacks mc !! k).
Qed.

Lemma entry_prop_or mc p k1 k2 c :
  entry p (prop_or mc k1 k2) c = call_of p (first_present mc [k1; k2]) c.
Proof.
  unfold prop_or, prop. simpl.
  destruct (callbacks mc !! k1); [done|]. by destruct (callbacks mc !! k2).
Qed.

Section Calm.

Variable mc : Machine.
Hypothesis Hcalm : calm_callbacks mc.

Lemma from_table_prop k : from_table mc (prop mc k).
Proof.
  intros key f. unfold prop. destruct (callbacks mc !! k) eqn:E; [|done].
  intros [= <- <-]. done.
Qed.

Lemma from_table_prop_or k1 k2 : from_table mc (prop_or mc k1 k2).
Proof.
  intros key f. unfold prop_or. destruct (prop mc k1) as [[k' f']|] eqn:E.
  - intros [= <- <-]. by apply (from_table_prop k1).
  - apply from_table_prop.
Qed.

Lemma doCallback_calm p func c s :
  from_table mc func →
  doCallback mc p func c s = (Ok (answer func c (fsm s)), logged s (entry p func c)).
Proof.
  intros Hft. unfold doCallback, answer, entry.
  destruct func as [[key f]|].
  - destruct (Hcalm key f c (fsm s) (Hft key f eq_refl)) as [v Hv].
    unfold try_catch, bind, emit, apply_. simpl. rewrite Hv. reflexivity.
  - unfold ret. by rewrite logged_nil.
Qed.

Lemma afterEvent_calm c s :
  afterEvent mc c s = (Ok VUndefined, logged s (after_calls mc c)).
Proof.
  unfold afterEvent, afterThisEvent, afterAnyEvent, after_calls.
  erewrite bind_ok by (apply doCallback_calm, from_table_prop_or).
  erewrite bind_ok by (apply doCallback_calm, from_table_prop_or).
  unfold ret. by rewrite logged_logged, !entry_prop_or.
Qed.

Lemma enterState_calm c s :
  enterState mc c s = (Ok VUndefined, logged s (enter_calls mc c)).
Proof.
  unfold enterState, enterThisState, enterAnyState, enter_calls.
  erewrite bind_ok by (apply doCallback_calm, from_table_prop_or).
  erewrite bind_ok by (apply doCallback_calm, from_table_prop_or).
  unfold ret. by rewrite logged_logged, !entry_prop_or.
Qed.

Lemma changeState_calm c s :
  changeState mc c s
  = (Ok (hook_answer mc "onchangestate" c (fsm s)), logged s (change_calls mc c)).
Proof.
  unfold changeState, change_calls, hook_answer.
  rewrite doCallback_calm by apply from_table_prop. by rewrite entry_prop.
Qed.

Lemma beforeEvent_calm c s :
  let v1 := hook_answer mc ("onbefore" +:+ c_name c) c (fsm s) in
  let v2 := hook_answer mc "onbeforeevent" c (fsm s) in
  is_false v1 = false → is_false v2 = false →
  beforeEvent mc c s = (Ok VUndefined, logged s (before_calls mc c)).
Proof.
  intros v1 v2 H1 H2. unfold beforeEvent, beforeThisEvent, beforeAnyEvent, before_calls.
  erewrite bind_ok by (apply doCallback_calm, from_table_prop).
  fold (hook_answer mc ("onbefore" +:+ c_name c) c (fsm s)). fold v1. rewrite H1.
  erewrite bind_ok by (apply doCallback_calm, from_table_prop).
  rewrite fsm_logged. fold (hook_answer mc "onbeforeevent" c (fsm s)). fold v2. rewrite H2.
  unfold ret. by rewrite logged_logged, !entry_prop.
Qed.

Lemma leaveState_calm c s :
  let v1 := hook_answer mc ("onleave" +:+ c_from c) c (fsm s) in
  let v2 := hook_answer mc "onleavestate" c (fsm s) in
  leaveState mc c s =
    (Ok (if is_false v1 || is_false v2 then VBool false
         else if is_async v1 || is_async v2 then VStr ASYNC
         else VUndefined),
     logged s (leave_calls mc c)).
Proof.
  intros v1 v2. unfold leaveState, leaveThisState, leaveAnyState, leave_calls.
  erewrite bind_ok by (apply doCallback_calm, from_table_prop).
  erewrite bind_ok by (apply doCallback_calm, from_table_prop).
  rewrite fsm_logged. fold (hook_answer mc ("onleave" +:+ c_from c) c (fsm s)).
  fold (hook_answer mc "onleavestate" c (fsm s)). fold v1 v2.
  rewrite logged_logged, !entry_prop.
  destruct (is_false v1 || is_false v2); [done|].
  destruct (is_async v1 || is_async v2); done.
Qed.

Lemma transition_fn_calm c s :
  transition_fn mc c s =
    (Ok (VNum Result.SUCCEEDED),
     {| fsm := {| current := c_to c; transition := None |};
        trace := trace s ++ enter_calls mc c ++ change_calls mc c ++ after_calls mc c |}).
Proof.
  unfold transition_fn.
  erewrite bind_ok by reflexivity. erewrite bind_ok by reflexivity.
  erewrite bind_ok by apply enterState_calm.
  erewrite bind_ok by apply changeState_calm.
  erewrite bind_ok by apply afterEvent_calm.
  unfold ret, logged. simpl. by rewrite <- !app_assoc.
Qed.

Lemma transition_cancel_calm c s :
  transition_cancel mc c s =
    (Ok VUndefined,
     {| fsm := {| current := current (fsm s); transition := None |};
        trace := trace s ++ after_calls mc c |}).
Proof.
  unfold transition_cancel.
  erewrite bind_ok by reflexivity.
  erewrite bind_ok by apply afterEvent_calm.
  reflexivity.
Qed.

End Calm.

(** * Asynchronous transitions *)

Section Async.

Variable mc : Machine.
Hypothesis Hcalm : calm_callbacks mc.

(** A firing that passes both guards and the before phase, between two
    different states, comes down to its leave phase. *)
Lemma fire_reaches_leave name emap args s :
  map (tables mc) !! name = Some emap →
  transition (fsm s) = None →
  hasOwnProperty emap (current (fsm s)) || hasOwnProperty emap WILDCARD = true →
  let c := context name emap args (fsm s) in
  c_from c ≠ c_to c →
  is_false (hook_answer mc ("onbefore" +:+ name) c (fsm s)) = false →
  is_false (hook_answer mc "onbeforeevent" c (fsm s)) = false →
  let v1 := hook_answer mc ("onleave" +:+ c_from c) c (armed c (fsm s)) in
  let v2 := hook_answer mc "onleavestate" c (armed c (fsm s)) in
  let s1 := {| fsm := armed c (fsm s);
               trace := trace s ++ before_calls mc c ++ leave_calls mc c |} in
  fire mc name args s =
    if is_false v1 || is_false v2 then
      (Ok (VNum Result.CANCELLED),
       {| fsm := {| current := current (fsm s); transition := None |}; trace := trace s1 |})
    else if is_async v1 || is_async v2 then (Ok (VNum Result.PENDING), s1)
    else transition_fn mc c s1.
Proof.
  intros Hreg Hp Hcan c Hne Hb1 Hb2 v1 v2 s1.
  rewrite (fire_permitted mc name emap args s Hreg Hp Hcan). fold c.
  unfold dispatch_body.
  erewrite bind_ok by (by apply beforeEvent_calm).
  change (is_false VUndefined) with false. cbv iota.
  rewrite bool_decide_eq_false_2 by done.
  set (s0 := {| fsm := armed c (fsm s); trace := trace s ++ before_calls mc c |}).
  erewrite (bind_ok _ _ _ tt s0) by reflexivity.
  pose proof (leaveState_calm mc Hcalm c s0) as E.
  change (fsm s0) with (armed c (fsm s)) in E. cbv zeta in E. fold v1 v2 in E.
  assert (logged s0 (leave_calls mc c) = s1) as El.
  { unfold logged, s1, s0. simpl. by rewrite <- app_assoc. }
  rewrite El in E. erewrite bind_ok by exact E.
  destruct (is_false v1 || is_false v2).
  { reflexivity. }
  destruct (is_async v1 || is_async v2).
  { reflexivity. }
  change (is_false VUndefined) with false. change (is_async VUndefined) with false.
  cbv iota. erewrite bind_ok by reflexivity. reflexivity.
Qed.

End Async.

Lemma calm_config initial events cbs err :
  Forall (λ kf : string * Callback, ∃ v, kf.2 = returning v) cbs →
  calm_callbacks (machine_of (config initial events cbs err)).
Proof.
  intros Hall k f c m Hk. simpl in Hk. apply elem_of_list_to_map_2 in Hk.
  rewrite Forall_forall in Hall. destruct (Hall _ Hk) as [v Hv]. simpl in Hv.
  subst f. by exists v.
Qed.

Lemma calm_cfg_async : calm_callbacks (machine_of cfg_async).
Proof. apply calm_config. repeat constructor; by eexists. Qed.

(** C2, as stated, fails in its last clause.  The function stored in
    [fsm.transition] carries no guard of its own: line 165 only empties the
    slot.  A caller that kept the function and calls it a second time gets
    SUCCEEDED again, and the enter, change and after hooks run again. *)
Lemma finalize_twice_reruns_hooks :
  let mc := machine_of cfg_async in
  let c := {| c_name := "start"; c_from := "created"; c_to := "running"; c_args := [] |} in
  transition (fsm pending_state) = Some c
  ∧ let s2 := (transition_fn mc c pending_state).2 in
    let r := transition_fn mc c s2 in
    r.1 = Ok (VNum Result.SUCCEEDED)
    ∧ new_trace s2 r.2 =
        [ OCall EnterThisState "onenterrunning" c;
          OCall EnterAnyState "onenterstate" c;
          OCall ChangeState "onchangestate" c;
          OCall AfterThisEvent "onafterstart" c ]
    ∧ r.2 ≠ s2.
Proof.
  intros mc c. split; [vm_compute; reflexivity|].
  intros s2 r. split_and!; [vm_compute; reflexivity | vm_compute; reflexivity |].
  vm_compute. discriminate.
Qed.

(** C2, amended.  Take a machine whose callbacks return and do not write
    [current] or [transition], and a firing that gets as far as its leave
    phase (no transition pending, event permitted, no before hook returning
    false, destination different from the current state).  If a leave hook
    returns the asynchronous marker and none returns false, then:
    - the firing returns PENDING, [current] is still the source state and
      the slot holds the transition;
    - [fsm.transition()] then returns SUCCEEDED, sets [current] to the
      destination, empties the slot, and runs the enter, change and after
      hooks that exist, once each and in that order;
    - [fsm.transition.cancel()] instead leaves [current] alone, empties the
      slot and runs the after hooks that exist, once each;
    - after either, a further [fsm.transition()] or
      [fsm.transition.cancel()] finds the slot empty: it throws and changes
      nothing, so no hook runs again.  (Nothing is claimed of a second call
      made on a retained reference to the function itself.) *)
Theorem async_transition mc name emap args s :
  calm_callbacks mc →
  map (tables mc) !! name = Some emap →
  transition (fsm s) = None →
  hasOwnProperty emap (current (fsm s)) || hasOwnProperty emap WILDCARD = true →
  let c := context name emap args (fsm s) in
  c_from c ≠ c_to c →
  is_false (hook_answer mc ("onbefore" +:+ name) c (fsm s)) = false →
  is_false (hook_answer mc "onbeforeevent" c (fsm s)) = false →
  let v1 := hook_answer mc ("onleave" +:+ c_from c) c (armed c (fsm s)) in
  let v2 := hook_answer mc "onleavestate" c (armed c (fsm s)) in
  is_false v1 || is_false v2 = false →
  is_async v1 || is_async v2 = true →
  let r0 := fire mc name args s in
  r0.1 = Ok (VNum Result.PENDING)
  ∧ fsm r0.2 = {| current := current (fsm s); transition := Some c |}
  ∧ (let r1 := call_transition mc r0.2 in
     r1.1 = Ok (VNum Result.SUCCEEDED)
     ∧ fsm r1.2 = {| current := c_to c; transition := None |}
     ∧ new_trace r0.2 r1.2 = enter_calls mc c ++ change_calls mc c ++ after_calls mc c
     ∧ (∃ e, call_transition mc r1.2 = (Exn e, r1.2))
     ∧ (∃ e, call_cancel mc r1.2 = (Exn e, r1.2)))
  ∧ (let r1 := call_cancel mc r0.2 in
     r1.1 = Ok VUndefined
     ∧ fsm r1.2 = {| current := current (fsm s); transition := None |}
     ∧ new_trace r0.2 r1.2 = after_calls mc c
     ∧ (∃ e, call_transition mc r1.2 = (Exn e, r1.2))
     ∧ (∃ e, call_cancel mc r1.2 = (Exn e, r1.2))).
Proof.
  intros Hcalm Hreg Hp Hcan c Hne Hb1 Hb2 v1 v2 Hf Ha r0. subst r0.
  rewrite (fire_reaches_leave mc Hcalm name emap args s Hreg Hp Hcan Hne Hb1 Hb2).
  fold c. fold v1 v2. rewrite Hf, Ha.
  set (s1 := {| fsm := armed c (fsm s);
                trace := trace s ++ before_calls mc c ++ leave_calls mc c |}).
  change (Ok (VNum Result.PENDING), s1).1 with (@Ok value (VNum Result.PENDING)).
  change (Ok (VNum Result.PENDING), s1).2 with s1.
  split; [done|]. split; [done|]. split.
  - assert (call_transition mc s1 = transition_fn mc c s1) as -> by reflexivity.
    rewrite (transition_fn_calm mc Hcalm c s1). cbv zeta.
    split_and!; try done.
    + by apply new_trace_app.
    + by eexists.
    + by eexists.
  - assert (call_cancel mc s1 = transition_cancel mc c s1) as -> by reflexivity.
    rewrite (transition_cancel_calm mc Hcalm c s1). cbv zeta.
    split_and!; try done.
    + by apply new_trace_app.
    + by eexists.
    + by eexists.
Qed.

Lemma async_transition_witness :
  let mc := machine_of cfg_async in
  let r0 := fire mc "start" [] (booted cfg_async) in
  r0.1 = Ok (VNum Result.PENDING)
  ∧ fsm r0.2 =
      {| current := "created";
         transition := Some {| c_name := "start"; c_from := "created";
                               c_to := "running"; c_args := [] |} |}.
Proof.
  intros mc r0.
  pose proof (async_transition mc "start" {[ "created" := "running" ]} []
                (booted cfg_async) calm_cfg_async) as H.
  destruct H as (H1 & H2 & _).
  - vm_compute. reflexivity.
  - vm_compute. reflexivity.
  - vm_compute. reflexivity.
  - vm_compute. discriminate.
  - vm_compute. reflexivity.
  - vm_compute. reflexivity.
  - vm_compute. reflexivity.
  - vm_compute. reflexivity.
  - split; [exact H1 | exact H2].
Defined.

(** * Cancelling in the before phase *)

Lemma prop_Some mc key f : callbacks mc !! key = Some f → prop mc key = Some (key, f).
Proof. intros E. unfold prop. by rewrite E. Qed.

Lemma prop_None mc key : callbacks mc !! key = None → prop mc key = None.
Proof. intros E. unfold prop. by rewrite E. Qed.

Lemma doCallback_returns mc p key f c s v :
  f c (fsm s) = (Ok v, fsm s) →
  doCallback mc p (Some (key, f)) c s = (Ok v, logged s [OCall p key c]).
Proof.
  intros E. unfold doCallback, try_catch, bind, emit, apply_. simpl. by rewrite E.
Qed.

Lemma hook_returns mc p key c s v :
  returns_quietly mc key c (fsm s) v →
  doCallback mc p (prop mc key) c s = (Ok v, logged s [OCall p key c]).
Proof.
  intros (f & Hf & E). rewrite (prop_Some _ _ _ Hf). by apply doCallback_returns.
Qed.

Lemma hook_passes mc p key c s :
  passes_quietly mc key c (fsm s) →
  ∃ v n, doCallback mc p (prop mc key) c s = (Ok v, logged s n)
         ∧ Forall (λ o, o = OCall p key c ∨ is_call o = false) n.
Proof.
  intros [Habs | [[v Hv] | (f & e & v & Hf & Ef & Eh)]].
  - exists VUndefined, []. rewrite (prop_None _ _ Habs). simpl.
    by rewrite logged_nil.
  - exists v, [OCall p key c]. split; [by apply hook_returns|].
    constructor; [by left | constructor].
  - exists v, [OCall p key c; OError Error.INVALID_CALLBACK c].
    rewrite (prop_Some _ _ _ Hf).
    unfold doCallback, try_catch, bind, emit, apply_, call_error. simpl.
    rewrite Ef. simpl. unfold bind, emit, apply_. simpl. rewrite Eh.
    unfold logged. simpl. split; [by rewrite <- app_assoc|].
    constructor; [by left|]. constructor; [by right | constructor].
Qed.

Lemma beforeEvent_veto mc c s :
  returns_quietly mc ("onbefore" +:+ c_name c) c (fsm s) (VBool false)
  ∨ (passes_quietly mc ("onbefore" +:+ c_name c) c (fsm s)
     ∧ returns_quietly mc "onbeforeevent" c (fsm s) (VBool false)) →
  ∃ n, beforeEvent mc c s = (Ok (VBool false), logged s n) ∧ Forall before_point n.
Proof.
  unfold beforeEvent, beforeThisEvent, beforeAnyEvent.
  intros [H1 | [Hpass H2]].
  - exists [OCall BeforeThisEvent ("onbefore" +:+ c_name c) c].
    erewrite bind_ok by (by apply hook_returns).
    split; [reflexivity|]. repeat constructor.
  - destruct (hook_passes mc BeforeThisEvent _ c s Hpass) as (v & n & E & Hn).
    assert (Forall before_point n) as Hn'.
    { eapply Forall_impl; [exact Hn|]. intros o [->|Ho]; [by left|].
      by destruct o. }
    erewrite bind_ok by exact E.
    destruct (is_false v).
    + by exists n.
    + erewrite bind_ok by (apply hook_returns; by rewrite fsm_logged).
      change (is_false (VBool false)) with true. cbv iota. rewrite logged_logged.
      eexists. split; [reflexivity|].
      apply Forall_app. split; [done|]. constructor; [by right | constructor].
Qed.

(** C6.  In a permitted firing (no transition pending, the event allowed in
    the current state), if the hook [onbefore<event>] returns [false], or if
    [onbeforeevent] returns [false] after [onbefore<event>] was found absent,
    returned, or threw into an error handler that returned, then the firing
    returns CANCELLED, [current] and the slot are what they were, and the
    only hooks invoked are before hooks: no leave, enter or change hook
    runs.  The callbacks are taken not to write [current] or [transition]
    themselves. *)
Theorem before_false_cancels mc name emap args s :
  map (tables mc) !! name = Some emap →
  transition (fsm s) = None →
  hasOwnProperty emap (current (fsm s)) || hasOwnProperty emap WILDCARD = true →
  let c := context name emap args (fsm s) in
  returns_quietly mc ("onbefore" +:+ name) c (fsm s) (VBool false)
  ∨ (passes_quietly mc ("onbefore" +:+ name) c (fsm s)
     ∧ returns_quietly mc "onbeforeevent" c (fsm s) (VBool false)) →
  let r := fire mc name args s in
  r.1 = Ok (VNum Result.CANCELLED)
  ∧ fsm r.2 = fsm s
  ∧ ∀ p key c', OCall p key c' ∈ new_trace s r.2 →
      p = BeforeThisEvent ∨ p = BeforeAnyEvent.
Proof.
  intros Hreg Hp Hcan c Hveto r. subst r.
  rewrite (fire_permitted mc name emap args s Hreg Hp Hcan). fold c.
  destruct (beforeEvent_veto mc c s Hveto) as (n & E & Hn).
  unfold dispatch_body. erewrite bind_ok by exact E.
  change (is_false (VBool false)) with true. cbv iota.
  split_and!; [done | done |].
  intros p key c' Hin. change (ret (VNum Result.CANCELLED) (logged s n)).2 with (logged s n) in Hin.
  rewrite new_trace_logged in Hin. rewrite Forall_forall in Hn. exact (Hn _ Hin).
Qed.

Lemma before_false_cancels_witness :
  let mc := machine_of cfg_veto in
  let r := fire mc "start" [] (booted cfg_veto) in
  r.1 = Ok (VNum Result.CANCELLED) ∧ fsm r.2 = fsm (booted cfg_veto).
Proof.
  intros mc r.
  pose proof (before_false_cancels mc "start" {[ "created" := "running" ]} []
                (booted cfg_veto)) as H.
  destruct H as (H1 & H2 & _).
  - vm_compute. reflexivity.
  - vm_compute. reflexivity.
  - vm_compute. reflexivity.
  - right. split.
    + right. left. exists VUndefined, (returning VUndefined).
      split; vm_compute; reflexivity.
    + exists (vetoing "start"). split; vm_compute; reflexivity.
  - split; [exact H1 | exact H2].
Defined.

(** * Hook resolution at the enter point *)

Lemma hook_calls_entry p func c : hook_calls (entry p func c) = entry p func c.
Proof. by destruct func as [[key f]|]. Qed.

Lemma doCallback_trace mc p func c s :
  ∃ errs, trace (doCallback mc p func c s).2 = trace s ++ entry p func c ++ errs
          ∧ hook_calls errs = [].
Proof.
  unfold doCallback. destruct func as [[key f]|].
  - unfold try_catch, bind, emit, apply_, call_error. simpl.
    destruct (f c (fsm s)) as [[v|e] m]; simpl.
    + by exists [].
    + exists [OError Error.INVALID_CALLBACK c].
      split; [|done]. etrans; [apply (call_error_trace mc c _ _ e)|].
      simpl. by rewrite <- app_assoc.
  - exists []. simpl. by rewrite app_nil_r.
Qed.

(** C7, as stated, fails.  [cfg_async] has both [onenterrunning] and
    [onenterstate].  Entering [running] invokes the specific hook and then
    the general one: the general hook is not a fallback for the specific
    one. *)
Lemma general_enter_hook_runs_after_specific :
  let mc := machine_of cfg_async in
  let c := {| c_name := "start"; c_from := "created"; c_to := "running"; c_args := [] |} in
  is_Some (callbacks mc !! "onenterrunning")
  ∧ new_trace pending_state (enterState mc c pending_state).2 =
      [ OCall EnterThisState "onenterrunning" c; OCall EnterAnyState "onenterstate" c ].
Proof.
  intros mc c. split; [|vm_compute; reflexivity].
  eexists. vm_compute. reflexivity.
Qed.

(** C7, amended.  Whenever the enter phase completes, it has invoked, in
    this order: the state-specific hook, which is [onenter<To>] or, only if
    that is absent, the plain [on<To>]; and then the general hook, which is
    [onenterstate] or, only if that is absent, [onstate].  The two are
    resolved independently of each other, and both run when both exist. *)
Theorem enter_resolution mc c s v s' :
  enterState mc c s = (Ok v, s') →
  hook_calls (new_trace s s') =
    call_of EnterThisState (first_present mc ["onenter" +:+ c_to c; "on" +:+ c_to c]) c
    ++ call_of EnterAnyState (first_present mc ["onenterstate"; "onstate"]) c.
Proof.
  unfold enterState, enterThisState, enterAnyState, bind.
  destruct (doCallback_trace mc EnterThisState
              (prop_or mc ("onenter" +:+ c_to c) ("on" +:+ c_to c)) c s) as (er1 & T1 & F1).
  destruct (doCallback mc EnterThisState _ c s) as [[v1|e1] s1]; [|discriminate].
  destruct (doCallback_trace mc EnterAnyState
              (prop_or mc "onenterstate" "onstate") c s1) as (er2 & T2 & F2).
  destruct (doCallback mc EnterAnyState _ c s1) as [[v2|e2] s2]; [|discriminate].
  intros [= <- <-]. simpl in T1, T2.
  rewrite (new_trace_app s s2
             ((entry EnterThisState (prop_or mc ("onenter" +:+ c_to c) ("on" +:+ c_to c)) c ++ er1)
              ++ entry EnterAnyState (prop_or mc "onenterstate" "onstate") c ++ er2))
    by (by rewrite T2, T1, <- !app_assoc).
  unfold hook_calls in *. rewrite !filter_app, F1, F2, !app_nil_r.
  fold (hook_calls (entry EnterThisState
          (prop_or mc ("onenter" +:+ c_to c) ("on" +:+ c_to c)) c)).
  fold (hook_calls (entry EnterAnyState (prop_or mc "onenterstate" "onstate") c)).
  by rewrite !hook_calls_entry, !entry_prop_or.
Qed.

Lemma enter_resolution_witness :
  let mc := machine_of cfg_async in
  let c := {| c_name := "start"; c_from := "created"; c_to := "running"; c_args := [] |} in
  hook_calls (new_trace pending_state (enterState mc c pending_state).2) =
    [ OCall EnterThisState "onenterrunning" c; OCall EnterAnyState "onenterstate" c ].
Proof.
  intros mc c.
  refine (enter_resolution mc c pending_state VUndefined (enterState mc c pending_state).2 _).
  vm_compute. reflexivity.
Defined.

(** * The tables built by [create] *)

Lemma keys_of_add_from name to t f e :
  keys_of (add_from name to t f) e =
    if decide (e = name) then <[f := str_or to f]> (keys_of t name) else keys_of t e.
Proof.
  unfold keys_of, add_from. simpl. case_decide as He.
  - subst e. by rewrite lookup_insert_eq.
  - by rewrite lookup_insert_ne.
Qed.


Lemma keys_of_declare name t e :
  keys_of {| map := <[name := default ∅ (map t !! name)]> (map t);
             transitions := transitions t |} e
  = keys_of t e.
Proof.
  unfold keys_of. simpl. destruct (decide (e = name)) as [->|He].
  - by rewrite lookup_insert_eq.
  - by rewrite lookup_insert_ne.
Qed.






(** * Introspection: [transitions()] against [can] *)


Section TransitionsAgainstCan.

Context `{Runtime}.


End TransitionsAgainstCan.


(** The missed case behind C9: an event declared without [from] can fire
    in every state, and [transitions()] lists it in none of them, because
    line 51 files it under the wildcard and line 79 reads the entry of the
    current state only. *)
Example wildcard_event_not_listed :
  let mc := machine_of cfg_async in
  can mc "reset" (booted cfg_async) = (Ok true, booted cfg_async)
  ∧ transitions_ mc (fsm (booted cfg_async)) = Some ["start"]
  ∧ transitions (tables mc) !! WILDCARD = Some ["reset"].
Proof. intros mc. split_and!; vm_compute; reflexivity. Qed.

(** * Construction *)

Lemma keys_of_foldl_add_from name to fs t e st :
  e ≠ name ∨ st ∉ fs →
  keys_of (foldl (add_from name to) t fs) e !! st = keys_of t e !! st.
Proof.
  revert t. induction fs as [|f fs IH]; intros t H; simpl; [done|].
  rewrite IH by (destruct H as [H|H]; [by left | right; set_solver]).
  rewrite keys_of_add_from. case_decide as He; [|done].
  destruct H as [H|H]; [done|]. subst e. apply lookup_insert_ne. set_solver.
Qed.

Lemma keys_of_add_other t e0 e st :
  e ≠ e_name e0 ∨ st ∉ from_of e0 →
  keys_of (add t e0) e !! st = keys_of t e !! st.
Proof.
  intros H. unfold add. rewrite keys_of_foldl_add_from by done.
  by rewrite keys_of_declare.
Qed.

Lemma keys_of_foldl_add es t e st :
  (∀ e0, e0 ∈ es → e_name e0 = e → st ∉ from_of e0) →
  keys_of (foldl add t es) e !! st = keys_of t e !! st.
Proof.
  revert t. induction es as [|e0 es IH]; intros t H; simpl; [done|].
  rewrite IH by (intros e1 Hin; apply H; by right).
  apply keys_of_add_other. destruct (decide (e = e_name e0)) as [->|He]; [|by left].
  right. apply H; [by left | done].
Qed.

Lemma keys_of_registered t e st x :
  keys_of t e !! st = Some x → map t !! e = Some (keys_of t e).
Proof.
  unfold keys_of. destruct (map t !! e); simpl; [done|].
  rewrite lookup_empty. discriminate.
Qed.

(** The entry [create] synthesizes for the initial event survives the
    registration of the configured events, unless one of them declares the
    same event from [none] again. *)
Lemma initial_entry cfg i :
  cfg_initial cfg = Some i →
  (∀ e, e ∈ cfg_events cfg → e_name e = initial_event i → "none" ∉ from_of e) →
  keys_of (build_tables cfg) (initial_event i) !! "none"
  = Some (str_or (Some (initial_state i)) "none").
Proof.
  intros Hi Hev. unfold build_tables. rewrite Hi.
  rewrite keys_of_foldl_add by done.
  unfold add. simpl. rewrite keys_of_add_from, decide_True by done.
  apply lookup_insert_eq.
Qed.

Lemma plain_calm mc : plain_callbacks mc → calm_callbacks mc.
Proof. intros H k f c m Hk. destruct (H k f c m Hk) as (v & E & _). by exists v. Qed.

Lemma plain_answer mc key c m :
  plain_callbacks mc →
  is_false (hook_answer mc key c m) = false ∧ is_async (hook_answer mc key c m) = false.
Proof.
  intros H. unfold hook_answer, answer, prop.
  destruct (callbacks mc !! key) as [f|] eqn:Hk; [|done].
  destruct (H key f c m Hk) as (v & E & Hf & Ha). by rewrite E.
Qed.

(** A permitted firing on a machine whose callbacks never cancel, suspend
    or throw. *)
Lemma fire_plain mc name emap args s :
  plain_callbacks mc →
  map (tables mc) !! name = Some emap →
  transition (fsm s) = None →
  hasOwnProperty emap (current (fsm s)) || hasOwnProperty emap WILDCARD = true →
  let c := context name emap args (fsm s) in
  fire mc name args s =
    if decide (c_from c = c_to c) then
      (Ok (VNum Result.NOTRANSITION), logged s (before_calls mc c ++ after_calls mc c))
    else
      (Ok (VNum Result.SUCCEEDED),
       {| fsm := {| current := c_to c; transition := None |};
          trace := trace s ++ before_calls mc c ++ leave_calls mc c ++ enter_calls mc c
                   ++ change_calls mc c ++ after_calls mc c |}).
Proof.
  intros Hplain Hreg Hp Hcan c. pose proof (plain_calm mc Hplain) as Hcalm.
  destruct (plain_answer mc ("onbefore" +:+ name) c (fsm s) Hplain) as [Hb1 _].
  destruct (plain_answer mc "onbeforeevent" c (fsm s) Hplain) as [Hb2 _].
  case_decide as Heq.
  - rewrite (fire_permitted mc name emap args s Hreg Hp Hcan). fold c.
    unfold dispatch_body. erewrite bind_ok by (by apply beforeEvent_calm).
    change (is_false VUndefined) with false. cbv iota.
    rewrite bool_decide_eq_true_2 by done.
    erewrite bind_ok by (by apply afterEvent_calm).
    unfold ret. by rewrite logged_logged.
  - rewrite (fire_reaches_leave mc Hcalm name emap args s Hreg Hp Hcan Heq Hb1 Hb2). fold c.
    destruct (plain_answer mc ("onleave" +:+ c_from c) c (armed c (fsm s)) Hplain) as [-> ->].
    destruct (plain_answer mc "onleavestate" c (armed c (fsm s)) Hplain) as [-> ->].
    simpl orb. cbv iota. rewrite (transition_fn_calm mc Hcalm). simpl.
    by rewrite <- !app_assoc.
Qed.

(** On a fresh object [create_on] is [create], for every configuration it
    describes. *)
Lemma build_machine_on_fresh `{Runtime} cfg :
  build_machine_on fresh cfg = build_machine cfg.
Proof.
  unfold build_machine_on, build_machine. simpl. f_equal. apply map_union_empty.
Qed.

Lemma create_on_fresh `{Runtime} cfg :
  ordinary cfg = true →
  (∀ i, cfg_initial cfg = Some i → initial_defer i = false →
        shadowed cfg (initial_event i) = false) →
  create_on fresh cfg = Some (create cfg).
Proof.
  intros Hord Hsh. unfold create_on, create. rewrite Hord. simpl.
  rewrite build_machine_on_fresh. change (start_state fresh) with initial_fsm.
  destruct (cfg_initial cfg) as [i|]; [|done].
  destruct (initial_defer i) eqn:Hd; [done|]. by rewrite (Hsh i).
Qed.

(** C8, as stated, fails.  [cfg_redeclared] has the initial state
    [created], not deferred, and no callbacks at all; one of its event
    specifications names the initial event [startup] again, from [none] to
    [running].  Line 53 overwrites the synthesized entry, and the machine
    [create] returns is in [running]. *)
Lemma redeclared_initial_event_wins :
  cfg_initial cfg_redeclared = Some (InitialName "created")
  ∧ cfg_callbacks cfg_redeclared = ∅
  ∧ create_on fresh cfg_redeclared = Some (create cfg_redeclared)
  ∧ (create cfg_redeclared).1 = Ok (build_machine cfg_redeclared)
  ∧ current (fsm (create cfg_redeclared).2) = "running"
  ∧ current (fsm (create cfg_redeclared).2) ≠ "created".
Proof.
  split_and!; try reflexivity. vm_compute. discriminate.
Qed.

Section Construction.

Context `{Runtime}.

(** C8, amended.  Let the configuration have an initial descriptor that is
    not deferred and names a non-empty state, and let no event
    specification declare the initial event from [none] again.  Let its
    names be ordinary: no event or source state is named like a member of
    [Object.prototype], no event is named like a hook ([on...]), neither an
    event nor a callback is named [transition], and the initial event is
    named neither like a callback nor like a member [create] installs
    ([current], [is], [can], [cannot], [transitions], [isFinished],
    [error]).  Let the object augmented (the target, or a
    fresh object) carry no pending transition, and let no callback,
    configured or found on that object, cancel, suspend, throw or write the
    machine.  Then [create] returns the machine, [current] is the configured
    initial state and nothing is pending; the hooks that ran during
    construction are those of the initial event (default name [startup])
    fired in the state [none]. *)
Theorem create_enters_initial_state host cfg i :
  cfg_initial cfg = Some i →
  initial_defer i = false →
  initial_state i ≠ "" →
  (∀ e, e ∈ cfg_events cfg → e_name e = initial_event i → "none" ∉ from_of e) →
  ordinary cfg = true →
  shadowed cfg (initial_event i) = false →
  h_transition host = None →
  plain_callbacks (build_machine_on host cfg) →
  let mc := build_machine_on host cfg in
  let c := {| c_name := initial_event i; c_from := "none";
              c_to := initial_state i; c_args := [] |} in
  ∃ s, create_on host cfg = Some (Ok mc, s)
       ∧ fsm s = {| current := initial_state i; transition := None |}
       ∧ trace s =
           if decide (initial_state i = "none")
           then before_calls mc c ++ after_calls mc c
           else before_calls mc c ++ leave_calls mc c ++ enter_calls mc c
                ++ change_calls mc c ++ after_calls mc c.
Proof.
  intros Hi Hdefer Hne Hev Hord Hsh Hhost Hplain mc c.
  pose proof (initial_entry cfg i Hi Hev) as Hentry.
  assert (str_or (Some (initial_state i)) "none" = initial_state i) as Hto.
  { unfold str_or. by rewrite (proj2 (String.eqb_neq _ _) Hne). }
  rewrite Hto in Hentry.
  pose proof (keys_of_registered _ _ _ _ Hentry) as Hreg.
  set (emap := keys_of (build_tables cfg) (initial_event i)) in *.
  assert (start_state host = initial_fsm) as Hstart
    by (unfold start_state; by rewrite Hhost).
  assert (context (initial_event i) emap [] (fsm initial_fsm) = c) as Hc.
  { unfold context, c, destination. simpl. rewrite Hentry. simpl.
    by rewrite (proj2 (String.eqb_neq _ _) Hne). }
  pose proof (fire_plain mc (initial_event i) emap [] initial_fsm Hplain Hreg eq_refl) as Hfire.
  rewrite Hc in Hfire. cbv zeta in Hfire.
  assert (hasOwnProperty emap (current (fsm initial_fsm))
          || hasOwnProperty emap WILDCARD = true) as Hcan
    by (unfold hasOwnProperty; simpl; by rewrite Hentry).
  specialize (Hfire Hcan). change (c_from c) with "none" in Hfire.
  change (c_to c) with (initial_state i) in Hfire.
  unfold create_on. rewrite Hord, Hi, Hdefer, Hsh, Hstart. simpl negb. cbv iota.
  fold mc. unfold bind. rewrite Hfire.
  destruct (decide ("none" = initial_state i)) as [Heq|Hneq].
  - eexists. split; [reflexivity|]. rewrite decide_True by done. simpl.
    split; [by rewrite <- Heq | done].
  - eexists. split; [reflexivity|]. rewrite decide_False by done. done.
Qed.

End Construction.

Lemma plain_config initial events cbs err :
  Forall (λ kf : string * Callback,
            ∃ v, kf.2 = returning v ∧ is_false v = false ∧ is_async v = false) cbs →
  plain_callbacks (machine_of (config initial events cbs err)).
Proof.
  intros Hall k f c m Hk. simpl in Hk. apply elem_of_list_to_map_2 in Hk.
  rewrite Forall_forall in Hall. destruct (Hall _ Hk) as (v & Hv & Hf & Ha).
  simpl in Hv. subst f. by exists v.
Qed.

Lemma create_enters_initial_state_witness :
  ∃ s, create_on fresh cfg_plain = Some (Ok (build_machine_on fresh cfg_plain), s)
       ∧ fsm s = {| current := "created"; transition := None |}.
Proof.
  destruct (create_enters_initial_state fresh cfg_plain (InitialName "created"))
    as (s & H1 & H2 & _).
  - reflexivity.
  - reflexivity.
  - discriminate.
  - intros e He Hname. vm_compute in He.
    repeat (apply elem_of_cons in He as [->|He]; [vm_compute in Hname; discriminate|]).
    by apply elem_of_nil in He.
  - vm_compute. reflexivity.
  - vm_compute. reflexivity.
  - reflexivity.
  - rewrite build_machine_on_fresh. apply plain_config. repeat constructor; by eexists.
  - exists s. split; [exact H1 | exact H2].
Defined.

(** * An event specification without [to], with an explicit [from] *)

Lemma foldl_add_from_self name t f fs :
  f ∈ fs → keys_of (foldl (add_from name None) t fs) name !! f = Some f.
Proof.
  revert t. induction fs as [|f0 fs IH]; intros t Hin; simpl.
  - by apply elem_of_nil in Hin.
  - destruct (decide (f ∈ fs)) as [Hfs|Hfs]; [by apply IH|].
    apply elem_of_cons in Hin as [->|Hin]; [|done].
    rewrite keys_of_foldl_add_from by (by right).
    rewrite keys_of_add_from, decide_True by done. apply lookup_insert_eq.
Qed.

(** Registering an event without [to] maps each of its source states to
    itself. *)
Lemma add_without_to t e f :
  e_to e = None → f ∈ from_of e → keys_of (add t e) (e_name e) !! f = Some f.
Proof. intros Hto Hin. unfold add. rewrite Hto. by apply foldl_add_from_self. Qed.

(** Where the entry of the current state is that state itself, the firing is
    the no-op the comment of line 53 announces. *)
Lemma self_entry_is_noop mc name emap args s :
  plain_callbacks mc →
  map (tables mc) !! name = Some emap →
  transition (fsm s) = None →
  current (fsm s) ≠ "" →
  emap !! current (fsm s) = Some (current (fsm s)) →
  let r := fire mc name args s in
  r.1 = Ok (VNum Result.NOTRANSITION) ∧ fsm r.2 = fsm s.
Proof.
  intros Hplain Hreg Hp Hne Hself r. subst r.
  rewrite (fire_plain mc name emap args s Hplain Hreg Hp)
    by (unfold hasOwnProperty; by rewrite Hself).
  assert (destination emap (current (fsm s)) = current (fsm s)) as Hd.
  { unfold destination. rewrite Hself. unfold str_or.
    by rewrite (proj2 (String.eqb_neq _ _) Hne). }
  simpl. rewrite Hd, decide_True by done. done.
Qed.

(** * Machines whose callbacks do not write the object *)

Lemma keeps_ret {A} (a : A) : keeps (ret a).
Proof. by intros s. Qed.

Lemma keeps_emit o : keeps (emit o).
Proof. by intros s. Qed.

Lemma keeps_bind {A B} (c : M A) (k : A → M B) :
  keeps c → (∀ a, keeps (k a)) → keeps (bind c k).
Proof.
  intros Hc Hk s. unfold bind. specialize (Hc s).
  destruct (c s) as [[a|e] s1]; simpl in *; [|done].
  by rewrite Hk.
Qed.

Section Quiet.

Variable mc : Machine.
Hypothesis Hquiet : quiet_machine mc.

Lemma keeps_call_error c code msg e : keeps (call_error mc c code msg e).
Proof.
  intros s. pose proof (call_error_result mc c code msg e s) as E.
  apply (f_equal snd) in E. simpl in E. rewrite E. apply Hquiet.
Qed.

Lemma keeps_doCallback p func c :
  from_table mc func → keeps (doCallback mc p func c).
Proof.
  intros Hft s. unfold doCallback. destruct func as [[key f]|]; [|done].
  pose proof (proj1 Hquiet key f c (fsm s) (Hft key f eq_refl)) as Hf.
  unfold try_catch, bind, emit, apply_. simpl.
  destruct (f c (fsm s)) as [[v|e] m]; simpl in *; [done|].
  rewrite keeps_call_error. simpl. done.
Qed.

Lemma keeps_beforeEvent c : keeps (beforeEvent mc c).
Proof.
  unfold beforeEvent, beforeThisEvent, beforeAnyEvent.
  apply keeps_bind; [apply keeps_doCallback, from_table_prop | intros v1].
  destruct (is_false v1); [apply keeps_ret|].
  apply keeps_bind; [apply keeps_doCallback, from_table_prop | intros v2].
  destruct (is_false v2); apply keeps_ret.
Qed.

Lemma keeps_afterEvent c : keeps (afterEvent mc c).
Proof.
  unfold afterEvent, afterThisEvent, afterAnyEvent.
  repeat (apply keeps_bind; [apply keeps_doCallback, from_table_prop_or | intros _]).
  apply keeps_ret.
Qed.


Lemma keeps_enterState c : keeps (enterState mc c).
Proof.
  unfold enterState, enterThisState, enterAnyState.
  repeat (apply keeps_bind; [apply keeps_doCallback, from_table_prop_or | intros _]).
  apply keeps_ret.
Qed.

Lemma keeps_changeState c : keeps (changeState mc c).
Proof. apply keeps_doCallback, from_table_prop. Qed.

Lemma keeps_notify c :
  keeps (enterState mc c;; changeState mc c;; afterEvent mc c;; ret (VNum Result.SUCCEEDED)).
Proof.
  apply keeps_bind; [apply keeps_enterState | intros _].
  apply keeps_bind; [apply keeps_changeState | intros _].
  apply keeps_bind; [apply keeps_afterEvent | intros _]. apply keeps_ret.
Qed.

Lemma transition_fn_quiet c s : fsm (transition_fn mc c s).2 = committed c.
Proof.
  unfold transition_fn.
  erewrite bind_ok by reflexivity. erewrite bind_ok by reflexivity.
  by rewrite keeps_notify.
Qed.

Lemma transition_cancel_quiet c s :
  fsm (transition_cancel mc c s).2 = {| current := current (fsm s); transition := None |}.
Proof.
  unfold transition_cancel. erewrite bind_ok by reflexivity.
  assert (keeps (afterEvent mc c;; ret VUndefined)) as H.
  { apply keeps_bind; [apply keeps_afterEvent | intros _; apply keeps_ret]. }
  by rewrite H.
Qed.

End Quiet.

Lemma quiet_config initial events cbs :
  Forall (λ kf : string * Callback,
            (∃ v, kf.2 = returning v) ∨ (∃ e, kf.2 = throwing e)
            ∨ (∃ n, kf.2 = vetoing n)) cbs →
  quiet_machine (machine_of (config initial events cbs None)).
Proof.
  intros Hall. split; [|by intros c code msg e m].
  intros k f c m Hk. simpl in Hk. apply elem_of_list_to_map_2 in Hk.
  rewrite Forall_forall in Hall.
  destruct (Hall _ Hk) as [[v Hv] | [[e He] | [n Hn]]]; simpl in *; by subst f.
Qed.







(** X2.  The function stored in the slot commits before it notifies: on a
    machine whose callbacks and handler do not write the object,
    [fsm.transition()] leaves [current] at the destination and the slot
    empty even when an enter, change or after hook throws, and
    [fsm.transition.cancel()] leaves [current] alone and the slot empty even
    when an after hook throws. *)
Theorem finalize_and_cancel_clear_the_slot mc c s :
  quiet_machine mc →
  transition (fsm s) = Some c →
  fsm (call_transition mc s).2 = {| current := c_to c; transition := None |}
  ∧ fsm (call_cancel mc s).2 = {| current := current (fsm s); transition := None |}.
Proof.
  intros Hq Hp. unfold call_transition, call_cancel, bind, get_fsm. rewrite Hp.
  split; [by apply transition_fn_quiet | by apply transition_cancel_quiet].
Qed.

Lemma finalize_and_cancel_clear_the_slot_witness :
  let mc := machine_of cfg_async_throwing in
  let s := after_firing cfg_async_throwing "start" (booted cfg_async_throwing) in
  (call_transition mc s).1 = Exn (VStr "boom")
  ∧ fsm (call_transition mc s).2 = {| current := "running"; transition := None |}.
Proof.
  intros mc s. split; [vm_compute; reflexivity|].
  refine (proj1 (finalize_and_cancel_clear_the_slot mc
            {| c_name := "start"; c_from := "created"; c_to := "running"; c_args := [] |}
            s _ _)).
  - apply quiet_config. constructor; [left; by eexists|].
    constructor; [right; left; by eexists | constructor].
  - vm_compute. reflexivity.
Defined.

(** * The outcomes of a permitted firing *)

Lemma beforeEvent_calm_full mc c s :
  calm_callbacks mc →
  let v1 := hook_answer mc ("onbefore" +:+ c_name c) c (fsm s) in
  let v2 := hook_answer mc "onbeforeevent" c (fsm s) in
  beforeEvent mc c s =
    (Ok (if is_false v1 || is_false v2 then VBool false else VUndefined),
     logged s (call_of BeforeThisEvent (first_present mc ["onbefore" +:+ c_name c]) c
               ++ if is_false v1 then []
                  else call_of BeforeAnyEvent (first_present mc ["onbeforeevent"]) c)).
Proof.
  intros Hcalm v1 v2. unfold beforeEvent, beforeThisEvent, beforeAnyEvent.
  erewrite bind_ok by (by apply doCallback_calm, from_table_prop).
  fold (hook_answer mc ("onbefore" +:+ c_name c) c (fsm s)). fold v1.
  rewrite entry_prop. destruct (is_false v1); simpl orb; cbv iota.
  { unfold ret. by rewrite app_nil_r. }
  erewrite bind_ok by (by apply doCallback_calm, from_table_prop).
  rewrite fsm_logged. fold (hook_answer mc "onbeforeevent" c (fsm s)). fold v2.
  rewrite logged_logged, entry_prop. by destruct (is_false v2).
Qed.

(** X3.  On a machine whose callbacks return and do not write the object, a
    permitted firing never throws and returns one of the four result codes,
    and the code tells the state of the object: SUCCEEDED, the destination
    is committed and differs from the source; NOTRANSITION, nothing changed
    and the destination is the source; CANCELLED, nothing changed; PENDING,
    [current] is unchanged and the slot holds the transition. *)
Theorem permitted_firing_results mc name emap args s :
  calm_callbacks mc →
  map (tables mc) !! name = Some emap →
  transition (fsm s) = None →
  hasOwnProperty emap (current (fsm s)) || hasOwnProperty emap WILDCARD = true →
  let c := context name emap args (fsm s) in
  let r := fire mc name args s in
  (r.1 = Ok (VNum Result.SUCCEEDED) ∧ fsm r.2 = committed c ∧ c_from c ≠ c_to c)
  ∨ (r.1 = Ok (VNum Result.NOTRANSITION) ∧ fsm r.2 = fsm s ∧ c_from c = c_to c)
  ∨ (r.1 = Ok (VNum Result.CANCELLED) ∧ fsm r.2 = fsm s)
  ∨ (r.1 = Ok (VNum Result.PENDING) ∧ fsm r.2 = armed c (fsm s)).
Proof.
  intros Hcalm Hreg Hp Hcan c r. subst r.
  destruct (is_false (hook_answer mc ("onbefore" +:+ name) c (fsm s))
            || is_false (hook_answer mc "onbeforeevent" c (fsm s))) eqn:Hveto.
  { right. right. left.
    rewrite (fire_permitted mc name emap args s Hreg Hp Hcan). fold c.
    unfold dispatch_body. erewrite bind_ok by (by apply beforeEvent_calm_full).
    change (c_name c) with name. rewrite Hveto. done. }
  apply orb_false_iff in Hveto as [Hb1 Hb2].
  destruct (decide (c_from c = c_to c)) as [Heq|Hne].
  { right. left.
    rewrite (fire_permitted mc name emap args s Hreg Hp Hcan). fold c.
    unfold dispatch_body. erewrite bind_ok by (by apply beforeEvent_calm).
    change (is_false VUndefined) with false. cbv iota.
    rewrite bool_decide_eq_true_2 by done.
    erewrite bind_ok by (by apply afterEvent_calm). done. }
  rewrite (fire_reaches_leave mc Hcalm name emap args s Hreg Hp Hcan Hne Hb1 Hb2). fold c.
  destruct (is_false _ || is_false _).
  { right. right. left. split; [done|]. simpl. destruct (fsm s) as [cur tr].
    simpl in *. by rewrite Hp. }
  destruct (is_async _ || is_async _).
  { right. right. right. done. }
  left. rewrite (transition_fn_calm mc Hcalm). done.
Qed.

Lemma permitted_firing_results_witness :
  let r := fire (machine_of cfg_observed) "start" [] (booted cfg_observed) in
  r.1 = Ok (VNum Result.SUCCEEDED) ∧ current (fsm r.2) = "running".
Proof.
  intros r.
  destruct (permitted_firing_results (machine_of cfg_observed) "start"
              {[ "created" := "running" ]} [] (booted cfg_observed))
    as [(H1 & H2 & _) | [(H1 & _) | [(H1 & _) | (H1 & _)]]].
  - apply calm_config. repeat constructor; by eexists.
  - vm_compute. reflexivity.
  - vm_compute. reflexivity.
  - vm_compute. reflexivity.
  - split; [exact H1 | exact (f_equal current H2)].
  - vm_compute in H1. discriminate.
  - vm_compute in H1. discriminate.
  - vm_compute in H1. discriminate.
Defined.

(** X4.  A synchronous transition runs its hooks in the order before,
    leave, enter, change, after, the specific hook of each point before the
    general one, each once.  This holds on a machine whose callbacks return
    and do not write the object, when no before hook returns false and the
    leave hooks return neither false nor the asynchronous marker; the
    firing then returns SUCCEEDED with the destination committed. *)
Theorem synchronous_transition_order mc name emap args s :
  calm_callbacks mc →
  map (tables mc) !! name = Some emap →
  transition (fsm s) = None →
  hasOwnProperty emap (current (fsm s)) || hasOwnProperty emap WILDCARD = true →
  let c := context name emap args (fsm s) in
  c_from c ≠ c_to c →
  is_false (hook_answer mc ("onbefore" +:+ name) c (fsm s)) = false →
  is_false (hook_answer mc "onbeforeevent" c (fsm s)) = false →
  let v1 := hook_answer mc ("onleave" +:+ c_from c) c (armed c (fsm s)) in
  let v2 := hook_answer mc "onleavestate" c (armed c (fsm s)) in
  is_false v1 || is_false v2 = false →
  is_async v1 || is_async v2 = false →
  fire mc name args s =
    (Ok (VNum Result.SUCCEEDED),
     {| fsm := {| current := c_to c; transition := None |};
        trace := trace s ++ before_calls mc c ++ leave_calls mc c ++ enter_calls mc c
                 ++ change_calls mc c ++ after_calls mc c |}).
Proof.
  intros Hcalm Hreg Hp Hcan c Hne Hb1 Hb2 v1 v2 Hf Ha.
  rewrite (fire_reaches_leave mc Hcalm name emap args s Hreg Hp Hcan Hne Hb1 Hb2).
  fold c. fold v1 v2. rewrite Hf, Ha. rewrite (transition_fn_calm mc Hcalm). simpl.
  by rewrite <- !app_assoc.
Qed.

Lemma synchronous_transition_order_witness :
  let c := {| c_name := "start"; c_from := "created"; c_to := "running"; c_args := [] |} in
  new_trace (booted cfg_observed)
    (fire (machine_of cfg_observed) "start" [] (booted cfg_observed)).2
  = [ OCall BeforeThisEvent "onbeforestart" c;
      OCall LeaveThisState "onleavecreated" c;
      OCall EnterThisState "onenterrunning" c;
      OCall ChangeState "onchangestate" c;
      OCall AfterAnyEvent "onafterevent" c ].
Proof.
  intros c.
  rewrite (synchronous_transition_order (machine_of cfg_observed) "start"
             {[ "created" := "running" ]} [] (booted cfg_observed)).
  - vm_compute. reflexivity.
  - apply calm_config. repeat constructor; by eexists.
  - vm_compute. reflexivity.
  - vm_compute. reflexivity.
  - vm_compute. reflexivity.
  - vm_compute. discriminate.
  - vm_compute. reflexivity.
  - vm_compute. reflexivity.
  - vm_compute. reflexivity.
  - vm_compute. reflexivity.
Defined.

(** X5.  A leave hook that returns false cancels the firing, and it does so
    even when the other leave hook returned the asynchronous marker: both
    leave hooks have run, the firing returns CANCELLED, the slot armed at
    line 164 is emptied again, [current] is unchanged, and no enter, change
    or after hook runs (unlike [cancel()], which runs the after hooks).
    Stated for callbacks that return and do not write the object. *)
Theorem leave_false_cancels mc name emap args s :
  calm_callbacks mc →
  map (tables mc) !! name = Some emap →
  transition (fsm s) = None →
  hasOwnProperty emap (current (fsm s)) || hasOwnProperty emap WILDCARD = true →
  let c := context name emap args (fsm s) in
  c_from c ≠ c_to c →
  is_false (hook_answer mc ("onbefore" +:+ name) c (fsm s)) = false →
  is_false (hook_answer mc "onbeforeevent" c (fsm s)) = false →
  let v1 := hook_answer mc ("onleave" +:+ c_from c) c (armed c (fsm s)) in
  let v2 := hook_answer mc "onleavestate" c (armed c (fsm s)) in
  is_false v1 || is_false v2 = true →
  fire mc name args s =
    (Ok (VNum Result.CANCELLED),
     {| fsm := fsm s; trace := trace s ++ before_calls mc c ++ leave_calls mc c |}).
Proof.
  intros Hcalm Hreg Hp Hcan c Hne Hb1 Hb2 v1 v2 Hf.
  rewrite (fire_reaches_leave mc Hcalm name emap args s Hreg Hp Hcan Hne Hb1 Hb2).
  fold c. fold v1 v2. rewrite Hf. simpl. destruct (fsm s) as [cur tr]. simpl in *.
  by rewrite Hp.
Qed.

Lemma calm_config_vetoing initial events cbs err :
  Forall (λ kf : string * Callback,
            (∃ v, kf.2 = returning v) ∨ (∃ n, kf.2 = vetoing n)) cbs →
  calm_callbacks (machine_of (config initial events cbs err)).
Proof.
  intros Hall k f c m Hk. simpl in Hk. apply elem_of_list_to_map_2 in Hk.
  rewrite Forall_forall in Hall.
  destruct (Hall _ Hk) as [[v Hv] | [n Hn]]; simpl in *; subst f; by eexists.
Qed.

Lemma leave_false_cancels_witness :
  let c := {| c_name := "start"; c_from := "created"; c_to := "running"; c_args := [] |} in
  let r := fire (machine_of cfg_leave_veto) "start" [] (booted cfg_leave_veto) in
  r.1 = Ok (VNum Result.CANCELLED)
  ∧ fsm r.2 = {| current := "created"; transition := None |}
  ∧ new_trace (booted cfg_leave_veto) r.2 =
      [ OCall LeaveThisState "onleavecreated" c; OCall LeaveAnyState "onleavestate" c ].
Proof.
  intros c r. subst r.
  rewrite (leave_false_cancels (machine_of cfg_leave_veto) "start"
             {[ "created" := "running" ]} [] (booted cfg_leave_veto)).
  - split_and!; vm_compute; reflexivity.
  - apply calm_config_vetoing.
    constructor; [left; by eexists|]. constructor; [right; by eexists|].
    constructor; [left; by eexists | constructor].
  - vm_compute. reflexivity.
  - vm_compute. reflexivity.
  - vm_compute. reflexivity.
  - vm_compute. discriminate.
  - vm_compute. reflexivity.
  - vm_compute. reflexivity.
  - vm_compute. reflexivity.
Defined.

(** X6.  The before phase short-circuits: when [onbefore<event>] returns
    false, the firing returns CANCELLED having invoked that hook and nothing
    else; [onbeforeevent] is not consulted, whether it exists or not. *)
Theorem before_veto_skips_general_hook mc name emap args s :
  map (tables mc) !! name = Some emap →
  transition (fsm s) = None →
  hasOwnProperty emap (current (fsm s)) || hasOwnProperty emap WILDCARD = true →
  let c := context name emap args (fsm s) in
  returns_quietly mc ("onbefore" +:+ name) c (fsm s) (VBool false) →
  fire mc name args s =
    (Ok (VNum Result.CANCELLED),
     logged s [OCall BeforeThisEvent ("onbefore" +:+ name) c]).
Proof.
  intros Hreg Hp Hcan c Hveto.
  rewrite (fire_permitted mc name emap args s Hreg Hp Hcan). fold c.
  unfold dispatch_body, beforeEvent, beforeThisEvent. change (c_name c) with name.
  erewrite bind_ok; [|erewrite bind_ok by (by apply hook_returns); reflexivity].
  reflexivity.
Qed.

Lemma before_veto_skips_general_hook_witness :
  let c := {| c_name := "start"; c_from := "created"; c_to := "running"; c_args := [] |} in
  is_Some (callbacks (machine_of cfg_before_veto) !! "onbeforeevent")
  ∧ new_trace (booted cfg_before_veto)
      (fire (machine_of cfg_before_veto) "start" [] (booted cfg_before_veto)).2
    = [OCall BeforeThisEvent "onbeforestart" c].
Proof.
  intros c. split; [eexists; vm_compute; reflexivity|].
  rewrite (before_veto_skips_general_hook (machine_of cfg_before_veto) "start"
             {[ "created" := "running" ]} [] (booted cfg_before_veto)).
  - vm_compute. reflexivity.
  - vm_compute. reflexivity.
  - vm_compute. reflexivity.
  - vm_compute. reflexivity.
  - exists (vetoing "start"). split; vm_compute; reflexivity.
Defined.

(** * The no-op shortcut *)

Lemma extends_mono {A} (P Q : Obs → Prop) (c : M A) :
  (∀ o, P o → Q o) → extends P c → extends Q c.
Proof.
  intros HPQ Hc s. destruct (Hc s) as (n & E & F). exists n. split; [done|].
  by eapply Forall_impl.
Qed.

Lemma extends_doCallback_at mc p func c ps :
  p ∈ ps → extends (phase_point ps) (doCallback mc p func c).
Proof.
  intros Hin. unfold doCallback. destruct func as [[key f]|]; [|apply extends_ret].
  apply extends_try_catch.
  - apply extends_bind; [by apply extends_emit | intros _; apply extends_apply].
  - intros e. unfold call_error.
    apply extends_bind; [by apply extends_emit | intros _; apply extends_apply].
Qed.

(** X7.  When the destination a permitted firing resolves is the current
    state itself, the firing takes the shortcut of lines 157-160, whatever
    the callbacks do: the only hooks invoked are before and after hooks
    (never a leave, enter or change hook), a normal completion is CANCELLED
    or NOTRANSITION, and the dispatcher itself writes neither [current] nor
    the slot (so they are unchanged if the callbacks leave them alone). *)
Theorem noop_shortcut mc name emap args s :
  map (tables mc) !! name = Some emap →
  transition (fsm s) = None →
  hasOwnProperty emap (current (fsm s)) || hasOwnProperty emap WILDCARD = true →
  destination emap (current (fsm s)) = current (fsm s) →
  let r := fire mc name args s in
  (∀ p key c, OCall p key c ∈ new_trace s r.2 →
     p ∈ [BeforeThisEvent; BeforeAnyEvent; AfterThisEvent; AfterAnyEvent])
  ∧ (∀ v, r.1 = Ok v → v = VNum Result.CANCELLED ∨ v = VNum Result.NOTRANSITION)
  ∧ (quiet_machine mc → fsm r.2 = fsm s).
Proof.
  intros Hreg Hp Hcan Hself r. subst r.
  rewrite (fire_permitted mc name emap args s Hreg Hp Hcan).
  set (c := context name emap args (fsm s)).
  set (ps := [BeforeThisEvent; BeforeAnyEvent; AfterThisEvent; AfterAnyEvent]).
  set (body := do b <- beforeEvent mc c;
               if is_false b then ret (VNum Result.CANCELLED)
               else afterEvent mc c;; ret (VNum Result.NOTRANSITION)).
  assert (dispatch_body mc c s = body s) as ->.
  { unfold dispatch_body, body, bind. destruct (beforeEvent mc c s) as [[b|e] s0]; [|done].
    destruct (is_false b); [done|]. by rewrite bool_decide_eq_true_2. }
  split_and!.
  - assert (extends (phase_point ps) body) as Hext.
    { unfold body, beforeEvent, beforeThisEvent, beforeAnyEvent, afterEvent,
        afterThisEvent, afterAnyEvent.
      apply extends_bind.
      - apply extends_bind; [apply extends_doCallback_at; set_solver | intros v1].
        destruct (is_false v1); [apply extends_ret|].
        apply extends_bind; [apply extends_doCallback_at; set_solver | intros v2].
        destruct (is_false v2); apply extends_ret.
      - intros b. destruct (is_false b); [apply extends_ret|].
        apply extends_bind; [|intros _; apply extends_ret].
        apply extends_bind; [apply extends_doCallback_at; set_solver | intros _].
        apply extends_bind; [apply extends_doCallback_at; set_solver | intros _].
        apply extends_ret. }
    destruct (Hext s) as (n & E & F). rewrite (new_trace_app _ _ _ E).
    intros p key c' Hin. rewrite Forall_forall in F. exact (F _ Hin).
  - intros v. unfold body, bind. destruct (beforeEvent mc c s) as [[b|e] s0]; [|done].
    destruct (is_false b); [intros [= <-]; by left|].
    destruct (afterEvent mc c s0) as [[a|e] s1]; [|done]. intros [= <-]. by right.
  - intros Hq. assert (keeps body) as K; [|apply K].
    apply keeps_bind; [by apply keeps_beforeEvent | intros b].
    destruct (is_false b); [apply keeps_ret|].
    apply keeps_bind; [by apply keeps_afterEvent | intros _; apply keeps_ret].
Qed.

Lemma noop_shortcut_witness :
  let r := fire (machine_of cfg_observed) "reset" [] (booted cfg_observed) in
  fsm r.2 = fsm (booted cfg_observed).
Proof.
  intros r.
  refine (proj2 (proj2 (noop_shortcut (machine_of cfg_observed) "reset"
                          {[ WILDCARD := "created" ]} [] (booted cfg_observed) _ _ _ _)) _).
  - vm_compute. reflexivity.
  - vm_compute. reflexivity.
  - vm_compute. reflexivity.
  - vm_compute. reflexivity.
  - apply quiet_config. repeat (constructor; [left; by eexists|]). constructor.
Defined.

(** * [can] against the guards of a firing *)

(** X8.  [can] predicts the two guards of the dispatcher.  For a registered
    event: if [can] answers true, firing it in that state reports neither
    INVALID_TRANSITION nor PENDING_TRANSITION; if [can] answers false, firing
    it reports one of the two and invokes no hook. *)
Theorem can_predicts_guards mc name emap args s :
  map (tables mc) !! name = Some emap →
  let new := new_trace s (fire mc name args s).2 in
  ((can mc name s).1 = Ok true →
     ¬ reports Error.INVALID_TRANSITION new ∧ ¬ reports Error.PENDING_TRANSITION new)
  ∧ ((can mc name s).1 = Ok false →
       (reports Error.INVALID_TRANSITION new ∨ reports Error.PENDING_TRANSITION new)
       ∧ hook_calls new = []).
Proof.
  intros Hreg new. subst new. unfold can, bind, get_fsm. simpl.
  destruct (transition (fsm s)) as [c0|] eqn:Hp.
  - split; [done|]. intros _.
    rewrite (fire_pending mc name emap args s c0 Hreg Hp).
    erewrite new_trace_app by apply call_error_trace.
    split; [|done]. right. eexists. by apply list_elem_of_singleton.
  - rewrite Hreg. unfold ret. simpl.
    destruct (hasOwnProperty emap (current (fsm s)) || hasOwnProperty emap WILDCARD) eqn:Hcan.
    + split; [|done]. intros _.
      rewrite (fire_permitted mc name emap args s Hreg Hp Hcan).
      destruct (extends_dispatch_body mc (context name emap args (fsm s)) s) as (n & E & F).
      rewrite (new_trace_app _ _ _ E). rewrite Forall_forall in F.
      split; intros [c H]; specialize (F _ H); simpl in F; discriminate.
    + split; [done|]. intros _.
      rewrite (fire_invalid mc name emap args s Hreg Hp Hcan).
      erewrite new_trace_app by apply call_error_trace.
      split; [|done]. left. eexists. by apply list_elem_of_singleton.
Qed.

Lemma can_predicts_guards_witness :
  let new := new_trace (booted cfg_async)
               (fire (machine_of cfg_async) "start" [] (booted cfg_async)).2 in
  ¬ reports Error.INVALID_TRANSITION new ∧ ¬ reports Error.PENDING_TRANSITION new.
Proof.
  intros new.
  refine (proj1 (can_predicts_guards (machine_of cfg_async) "start"
                   {[ "created" := "running" ]} [] (booted cfg_async) _) _).
  - vm_compute. reflexivity.
  - vm_compute. reflexivity.
Defined.

(** * A leave hook that completes the transition itself *)

(** X9.  Lines 185-188.  After a leave phase that returned neither false
    nor the asynchronous marker, the dispatcher looks at the slot again.  If
    the leave hooks left it empty (a hook called [this.transition()] itself
    and forgot to return ASYNC), the firing returns [undefined], not a
    result code, and the dispatcher runs no enter, change or after hook of
    its own; otherwise it calls whatever function the slot holds at that
    moment. *)
Theorem firing_after_leave_phase mc name emap args s b s0 l s2 :
  map (tables mc) !! name = Some emap →
  transition (fsm s) = None →
  hasOwnProperty emap (current (fsm s)) || hasOwnProperty emap WILDCARD = true →
  let c := context name emap args (fsm s) in
  c_from c ≠ c_to c →
  beforeEvent mc c s = (Ok b, s0) → is_false b = false →
  leaveState mc c (set_transition (Some c) s0).2 = (Ok l, s2) →
  is_false l = false → is_async l = false →
  fire mc name args s =
    match transition (fsm s2) with
    | Some c' => transition_fn mc c' s2
    | None => (Ok VUndefined, s2)
    end.
Proof.
  intros Hreg Hp Hcan c Hne Eb Hb El Hl1 Hl2.
  rewrite (fire_permitted mc name emap args s Hreg Hp Hcan). fold c.
  unfold dispatch_body. erewrite bind_ok by exact Eb. rewrite Hb.
  rewrite bool_decide_eq_false_2 by done.
  erewrite bind_ok by reflexivity. erewrite bind_ok by exact El.
  rewrite Hl1, Hl2. erewrite bind_ok by reflexivity.
  by destruct (transition (fsm s2)).
Qed.

Lemma firing_after_leave_phase_witness :
  let c := {| c_name := "start"; c_from := "created"; c_to := "running"; c_args := [] |} in
  fire (machine_of cfg_manual) "start" [] (booted cfg_manual)
  = (Ok VUndefined,
     {| fsm := {| current := "running"; transition := None |};
        trace := [OCall LeaveThisState "onleavecreated" c] |}).
Proof.
  intros c.
  rewrite (firing_after_leave_phase (machine_of cfg_manual) "start"
             {[ "created" := "running" ]} [] (booted cfg_manual)
             VUndefined (booted cfg_manual) VUndefined
             {| fsm := {| current := "running"; transition := None |};
                trace := [OCall LeaveThisState "onleavecreated" c] |}).
  - vm_compute. reflexivity.
  - vm_compute. reflexivity.
  - vm_compute. reflexivity.
  - vm_compute. reflexivity.
  - vm_compute. discriminate.
  - vm_compute. reflexivity.
  - reflexivity.
  - vm_compute. reflexivity.
  - reflexivity.
  - reflexivity.
Defined.

(** * The default error handler *)

Section DefaultHandler.

Context `{Runtime}.

(** X10.  Under the default error handler (no [error] in the
    configuration), a hook that throws makes [doCallback] report
    INVALID_CALLBACK once and throw in its turn: the thrown value is the
    hook's own exception when that is truthy, and the fixed message
    otherwise ([throw e || msg]), so a hook that throws [0], the empty
    string, [null] or [undefined] surfaces as the message. *)
Theorem default_handler_rethrows cfg p key f c s e m :
  cfg_error cfg = None →
  f c (fsm s) = (Exn e, m) →
  doCallback (build_machine cfg) p (Some (key, f)) c s =
    (Exn (if truthy e then e
          else VStr "an exception occurred in a caller-provided callback function"),
     {| fsm := m;
        trace := trace s ++ [OCall p key c; OError Error.INVALID_CALLBACK c] |}).
Proof.
  intros Herr Ef.
  unfold doCallback, try_catch, bind, emit, apply_, call_error. simpl. rewrite Ef.
  unfold bind, emit, apply_. simpl. unfold build_machine. simpl. rewrite Herr. simpl.
  by rewrite <- app_assoc.
Qed.

End DefaultHandler.

Lemma default_handler_rethrows_witness :
  let c := {| c_name := "start"; c_from := "created"; c_to := "running"; c_args := [] |} in
  (doCallback (build_machine cfg_throwing_enter) EnterThisState
     (Some ("onenterrunning", throwing (VStr ""))) c (booted cfg_throwing_enter)).1
  = Exn (VStr "an exception occurred in a caller-provided callback function").
Proof.
  intros c.
  refine (f_equal fst
            (default_handler_rethrows cfg_throwing_enter EnterThisState "onenterrunning"
               (throwing (VStr "")) c (booted cfg_throwing_enter) (VStr "")
               (fsm (booted cfg_throwing_enter)) _ _)).
  - reflexivity.
  - reflexivity.
Defined.

(** * More on the tables *)

Lemma keys_of_foldl_add_from_in name to t f fs :
  f ∈ fs → keys_of (foldl (add_from name to) t fs) name !! f = Some (str_or to f).
Proof.
  revert t. induction fs as [|f0 fs IH]; intros t Hin; simpl.
  - by apply elem_of_nil in Hin.
  - destruct (decide (f ∈ fs)) as [Hfs|Hfs]; [by apply IH|].
    apply elem_of_cons in Hin as [->|Hin]; [|done].
    rewrite keys_of_foldl_add_from by (by right).
    rewrite keys_of_add_from, decide_True by done. apply lookup_insert_eq.
Qed.

Lemma keys_of_add t e n f :
  keys_of (add t e) n !! f =
    if decide (n = e_name e ∧ f ∈ from_of e) then Some (str_or (e_to e) f)
    else keys_of t n !! f.
Proof.
  case_decide as H.
  - destruct H as [-> Hin]. unfold add. by apply keys_of_foldl_add_from_in.
  - apply keys_of_add_other. apply not_and_l in H. tauto.
Qed.

Lemma keys_of_add_persist t e n f :
  is_Some (keys_of t n !! f) → is_Some (keys_of (add t e) n !! f).
Proof. intros H. rewrite keys_of_add. case_decide; [by eexists | done]. Qed.

Lemma keys_of_foldl_add_persist es t n f :
  is_Some (keys_of t n !! f) → is_Some (keys_of (foldl add t es) n !! f).
Proof.
  revert t. induction es as [|e es IH]; intros t H; simpl; [done|].
  by apply IH, keys_of_add_persist.
Qed.











Section InitialEvent.

Context `{Runtime}.

(** X15.  The initial event is always permitted in the fresh machine: for
    every configuration with an initial descriptor, [can] answers true for
    the initial event in the state [none] with nothing pending, whatever
    else the configuration declares; so the firing at the end of [create]
    is never rejected by a guard. *)
Theorem initial_event_is_permitted cfg i :
  cfg_initial cfg = Some i →
  can (build_machine cfg) (initial_event i) initial_fsm = (Ok true, initial_fsm).
Proof.
  intros Hi.
  assert (is_Some (keys_of (build_tables cfg) (initial_event i) !! "none")) as [d Hd].
  { unfold build_tables. rewrite Hi. apply keys_of_foldl_add_persist.
    rewrite keys_of_add, decide_True; [by eexists|].
    split; [done|]. simpl. apply list_elem_of_here. }
  pose proof (keys_of_registered _ _ _ _ Hd) as Hreg.
  unfold can, bind, get_fsm. simpl. rewrite Hreg. unfold ret, hasOwnProperty.
  simpl. by rewrite Hd.
Qed.

End InitialEvent.

Lemma initial_event_is_permitted_witness :
  can (build_machine cfg_redeclared) "startup" initial_fsm = (Ok true, initial_fsm).
Proof.
  refine (initial_event_is_permitted cfg_redeclared (InitialName "created") _).
  reflexivity.
Defined.

(** * Resolution of the destination *)



(** * [isFinished] *)

Lemma is_iff (a : option StateArg) m :
  is_ a m = true ↔ current m ∈ match a with Some x => states_of x | None => [] end.
Proof.
  unfold is_. destruct a as [[st|l]|]; simpl.
  - by rewrite bool_decide_eq_true, list_elem_of_singleton.
  - by rewrite bool_decide_eq_true.
  - split; [done | by intros ?%elem_of_nil].
Qed.

Section Finished.

Context `{Runtime}.

(** X17.  [isFinished()] answers true exactly when [current] is one of the
    terminal states of the configuration: those given as [terminal]; or
    those given as [final], when [terminal] is absent or is the empty
    string, which line 39 cannot tell from absent; with neither, the
    machine is never finished.  An array given as [terminal] always counts,
    even an empty one.  A single name and an array of names are treated
    alike. *)
Theorem isFinished_iff cfg m :
  isFinished (build_machine cfg) m = true ↔ current m ∈ terminal_states cfg.
Proof.
  unfold isFinished. rewrite is_iff. simpl. unfold terminal_of, terminal_states, final_states.
  destruct (cfg_terminal cfg) as [[st|l]|]; simpl; [|done|done].
  by destruct (String.eqb st "").
Qed.

End Finished.

(** A terminal state given as the empty string gives way to [final]. *)
Example empty_terminal_falls_back_to_final :
  let cfg := {| cfg_initial := None; cfg_terminal := Some (OneState "");
                cfg_final := Some (OneState "done"); cfg_events := [];
                cfg_callbacks := ∅; cfg_error := None |} in
  isFinished (build_machine cfg) {| current := "done"; transition := None |} = true
  ∧ isFinished (build_machine cfg) {| current := ""; transition := None |} = false.
Proof. split; reflexivity. Qed.

(** * Deferred construction *)

Section Deferred.

Context `{Runtime}.


End Deferred.


(** * Sessions *)




